(** * mcp-daemonize: the process supervisor and its bounded log buffer

    A shallow embedding of [logger.go], [daemon.go] and the tool handlers
    of [daemonize.go], and the properties that are checked against them.

    Conventions of the embedding:
    - Go [int] and [int64] values are [Z]; every length that occurs is a
      slice or string length, so no wrap-around can be reached.
    - a Go [string] is a [string] (a sequence of 8-bit characters), a
      [[]byte] is a [list byte], and [string(p)] is [string_of_list_byte];
    - a Go [error] is an [option error], [None] being [nil]. *)

From Stdlib Require Import ZArith List Strings.String Strings.Ascii Strings.Byte Bool Lia.
From Stdlib Require Import QArith DecimalString Sorted Permutation.
From Stdlib Require OrderedTypeEx.
Import ListNotations.
Open Scope string_scope.
Open Scope list_scope.
Open Scope Z_scope.

(** ** Go errors *)

Module GoErr.

(** [syscall.WaitStatus], seen through [Exited], [Signaled] and
    [ExitStatus]. *)
Inductive WaitStatus : Type :=
| WExited (code : Z)
| WSignaled (sig : Z)
| WStopped (sig : Z)
| WContinued.

(** The error values the supervisor can meet.  [Sentinel] is a
    package-level error variable, identified by its text ([io.EOF],
    [os.ErrProcessDone], ...); [ErrorsNew] is an error allocated by a call
    of [errors.New]; [Errorf] is [fmt.Errorf] with one [%w] verb. *)
Inductive error : Type :=
| Errno (n : Z)
| Sentinel (msg : string)
| ErrorsNew (msg : string)
| ExitError (ws : WaitStatus)
| SyscallError (call : string) (err : error)
| Errorf (format : string) (args : list string) (wrapped : error).

Definition EOF : error := Sentinel "EOF".
Definition ErrProcessDone : error := Sentinel "os: process already finished".
Definition ErrPermission : error := Sentinel "permission denied".
Definition ErrExist : error := Sentinel "file already exists".
Definition ErrNotExist : error := Sentinel "file does not exist".
Definition ErrUnsupported : error := Sentinel "unsupported operation".
Definition Canceled : error := Sentinel "context canceled".
Definition DeadlineExceeded : error := Sentinel "context deadline exceeded".

(** [syscall.Errno] values (Linux). *)
Definition EPERM : Z := 1.
Definition ENOENT : Z := 2.
Definition ESRCH : Z := 3.
Definition ECHILD : Z := 10.
Definition EACCES : Z := 13.
Definition EEXIST : Z := 17.
Definition EINVAL : Z := 22.
Definition ENOSYS : Z := 38.
Definition ENOTEMPTY : Z := 39.
Definition ENOTSUP : Z := 95.

(** Go's [==] on two error values.  An error allocated at run time is a
    fresh pointer and equals no package-level target. *)
Definition error_eqb (a b : error) : bool :=
  match a, b with
  | Errno n, Errno m => n =? m
  | Sentinel s, Sentinel t => String.eqb s t
  | _, _ => false
  end.

(** [func (e Errno) Is(target error) bool] *)
Definition Errno_Is (e : Z) (target : error) : bool :=
  if error_eqb target ErrPermission then (e =? EACCES) || (e =? EPERM)
  else if error_eqb target ErrExist then (e =? EEXIST) || (e =? ENOTEMPTY)
  else if error_eqb target ErrNotExist then e =? ENOENT
  else if error_eqb target ErrUnsupported then (e =? ENOSYS) || (e =? ENOTSUP)
  else false.

(** [errors.Is] on a non-nil [err]: the chain of [Unwrap] is walked, and
    each link is compared with [==] and asked through its [Is] method. *)
Fixpoint errors_Is (err target : error) : bool :=
  error_eqb err target ||
  match err with
  | Errno n => Errno_Is n target
  | SyscallError _ e => errors_Is e target
  | Errorf _ _ e => errors_Is e target
  | _ => false
  end.

(** [errors.As(err, &ee)] with [ee : *exec.ExitError]: the first exit
    error of the chain, through its wait status. *)
Fixpoint errors_As_ExitError (err : error) : option WaitStatus :=
  match err with
  | ExitError ws => Some ws
  | SyscallError _ e => errors_As_ExitError e
  | Errorf _ _ e => errors_As_ExitError e
  | _ => None
  end.

Definition Signaled (ws : WaitStatus) : bool :=
  match ws with WSignaled _ => true | _ => false end.

Definition Exited (ws : WaitStatus) : bool :=
  match ws with WExited _ => true | _ => false end.

(** [ExitCode] is -1 for a process that did not exit. *)
Definition ExitCode (ws : WaitStatus) : Z :=
  match ws with WExited c => c | _ => -1 end.

End GoErr.

Export GoErr.

(** ** logger.go *)

Module Logger.

Definition len (s : string) : Z := Z.of_nat (String.length s).

(** [s[i]], [None] where Go panics. *)
Definition char_at (s : string) (i : Z) : option ascii :=
  if i <? 0 then None else String.get (Z.to_nat i) s.

(** [s[:hi]] for [0 <= hi <= len(s)]. *)
Definition str_to (s : string) (hi : Z) : string :=
  substring 0 (Z.to_nat hi) s.

Definition newline : ascii := "010"%char.

Record memoryLogger : Type := {
  lines : list string;
  maxLines : Z
}.

Definition NewMemoryLogger : memoryLogger :=
  {| lines := []; maxLines := 1024 |}.

Definition ends_with_newline (line : string) : bool :=
  (0 <? len line) &&
  match char_at line (len line - 1) with
  | Some c => Ascii.eqb c newline
  | None => false
  end.

(** The line that [Write] stores for the input [s]. *)
Definition stored_line (s : string) : string :=
  if ends_with_newline s then str_to s (len s - 1) else s.

(** [Write]: the new logger, and the pair [(n, err)] it returns. *)
Definition Write (m : memoryLogger) (p : list byte)
  : memoryLogger * (Z * option error) :=
  let line := stored_line (string_of_list_byte p) in
  let ls := lines m ++ [line] in
  let ls := if Z.of_nat (List.length ls) >? maxLines m then skipn 1 ls else ls in
  ({| lines := ls; maxLines := maxLines m |},
   (Z.of_nat (List.length p), None)).

(** [ReadLine]: the new logger, and the pair [(ss, err)] it returns; a nil
    slice is [[]]. *)
Definition ReadLine (m : memoryLogger) (offset : Z)
  : memoryLogger * (list string * option error) :=
  if (offset <? 0) || (offset >=? Z.of_nat (List.length (lines m)))
  then (m, ([], Some EOF))
  else if offset >=? Z.of_nat (List.length (lines m))
  then (m, ([], None))
  else
    let ss := skipn (Z.to_nat offset) (lines m) in
    ({| lines := firstn (Z.to_nat offset) (lines m);
        maxLines := maxLines m |},
     (ss, None)).

Definition Lines (m : memoryLogger) : Z := Z.of_nat (List.length (lines m)).

Definition Close (m : memoryLogger) : memoryLogger * option error :=
  (m, None).

(** The four methods of the [Logger] interface, as requests. *)
Inductive call : Type :=
| CallWrite (p : list byte)
| CallReadLine (offset : Z)
| CallLines
| CallClose.

Definition apply_call (m : memoryLogger) (c : call) : memoryLogger :=
  match c with
  | CallWrite p => fst (Write m p)
  | CallReadLine offset => fst (ReadLine m offset)
  | CallLines => m
  | CallClose => fst (Close m)
  end.

Definition run_calls (cs : list call) (m : memoryLogger) : memoryLogger :=
  fold_left apply_call cs m.

(** The input of [TestMemoryLogger], and a buffer of three lines. *)
Definition hello : list byte :=
  list_byte_of_string ("hello world" ++ String newline "")%string.

Definition three_lines : memoryLogger :=
  {| lines := ["a"; "b"; "c"]; maxLines := 1024 |}.

(** The capacity invariant of the buffer. *)
Definition within_cap (m : memoryLogger) : Prop :=
  maxLines m = 1024 /\ Lines m <= 1024.

End Logger.

(** ** daemon.go *)

Module Supervisor.
Import Logger.

(** *** Data *)

(** [type DaemonStatus string] *)
Definition DaemonStatus : Type := string.
Definition DaemonStatusRunning : DaemonStatus := "running".
Definition DaemonStatusStopped : DaemonStatus := "stopped".

(** [context.Context]: the background context, a context with a cancel
    function or a deadline of its own (numbered [id]), and
    [context.WithoutCancel]. *)
Inductive Context : Type :=
| Background
| WithCancel (id : nat) (parent : Context)
| WithDeadline (id : nat) (parent : Context)
| WithoutCancel (parent : Context).

(** [fired] lists the cancel functions called and the deadlines passed so
    far.  [ctx_done] tells whether [ctx.Done()] is closed; the [Done]
    channel of [WithoutCancel] is nil and never ready. *)
Fixpoint ctx_done (fired : list nat) (ctx : Context) : bool :=
  match ctx with
  | Background => false
  | WithCancel id parent => existsb (Nat.eqb id) fired || ctx_done fired parent
  | WithDeadline id parent => existsb (Nat.eqb id) fired || ctx_done fired parent
  | WithoutCancel _ => false
  end.

(** [ctx.Err()] *)
Fixpoint ctx_err (fired : list nat) (ctx : Context) : option error :=
  match ctx with
  | Background => None
  | WithCancel id parent =>
      if existsb (Nat.eqb id) fired then Some Canceled else ctx_err fired parent
  | WithDeadline id parent =>
      if existsb (Nat.eqb id) fired then Some DeadlineExceeded
      else ctx_err fired parent
  | WithoutCancel _ => None
  end.

(** Where the child's output goes. *)
Inductive writer : Type :=
| NoWriter
| DaemonLogger.

(** [exec.Cmd], with the fields the supervisor sets.  [Process] is
    [d.cmd.Process], nil until the spawn succeeded, through its pid. *)
Record Cmd : Type := {
  cmd_ctx : Context;
  Path : string;
  Args : list string;
  Stdout : writer;
  Stderr : writer;
  Dir : string;
  Setpgid : bool;
  Process : option Z
}.

(** [exec.CommandContext(ctx, name, arg...)] *)
Definition CommandContext (ctx : Context) (name : string) (arg : list string)
  : Cmd :=
  {| cmd_ctx := ctx; Path := name; Args := name :: arg;
     Stdout := NoWriter; Stderr := NoWriter; Dir := "";
     Setpgid := false; Process := None |}.

Definition set_Stdout (o : writer) (c : Cmd) : Cmd :=
  {| cmd_ctx := cmd_ctx c; Path := Path c; Args := Args c;
     Stdout := o; Stderr := Stderr c; Dir := Dir c;
     Setpgid := Setpgid c; Process := Process c |}.

Definition set_Stderr (o : writer) (c : Cmd) : Cmd :=
  {| cmd_ctx := cmd_ctx c; Path := Path c; Args := Args c;
     Stdout := Stdout c; Stderr := o; Dir := Dir c;
     Setpgid := Setpgid c; Process := Process c |}.

Definition set_Dir (dir : string) (c : Cmd) : Cmd :=
  {| cmd_ctx := cmd_ctx c; Path := Path c; Args := Args c;
     Stdout := Stdout c; Stderr := Stderr c; Dir := dir;
     Setpgid := Setpgid c; Process := Process c |}.

Definition set_Setpgid (b : bool) (c : Cmd) : Cmd :=
  {| cmd_ctx := cmd_ctx c; Path := Path c; Args := Args c;
     Stdout := Stdout c; Stderr := Stderr c; Dir := Dir c;
     Setpgid := b; Process := Process c |}.

Definition set_Process (pid : option Z) (c : Cmd) : Cmd :=
  {| cmd_ctx := cmd_ctx c; Path := Path c; Args := Args c;
     Stdout := Stdout c; Stderr := Stderr c; Dir := Dir c;
     Setpgid := Setpgid c; Process := pid |}.

(** The condition under which the [exec] package itself kills the child
    of a command made by [exec.CommandContext]: the context of the command
    is done. *)
Definition exec_kills_child (fired : list nat) (c : Cmd) : bool :=
  ctx_done fired (cmd_ctx c).

(** [type Daemon struct]: [mu] is [true] while the mutex is held and
    [done] is [true] once the channel [d.done] is closed. *)
Record Daemon : Type := {
  Name : string;
  Commands : list string;
  Logger : memoryLogger;
  Workdir : string;
  cmd : option Cmd;
  mu : bool;
  exitError : option error;
  done : bool
}.

Definition NewDaemon (name : string) (commands : list string)
  (workdir : string) : Daemon :=
  {| Name := name; Commands := commands; Logger := NewMemoryLogger;
     Workdir := workdir; cmd := None; mu := false; exitError := None;
     done := false |}.

Definition set_Logger (l : memoryLogger) (d : Daemon) : Daemon :=
  {| Name := Name d; Commands := Commands d; Logger := l;
     Workdir := Workdir d; cmd := cmd d; mu := mu d;
     exitError := exitError d; done := done d |}.

Definition set_cmd (c : option Cmd) (d : Daemon) : Daemon :=
  {| Name := Name d; Commands := Commands d; Logger := Logger d;
     Workdir := Workdir d; cmd := c; mu := mu d;
     exitError := exitError d; done := done d |}.

Definition set_mu (b : bool) (d : Daemon) : Daemon :=
  {| Name := Name d; Commands := Commands d; Logger := Logger d;
     Workdir := Workdir d; cmd := cmd d; mu := b;
     exitError := exitError d; done := done d |}.

Definition set_exitError (e : option error) (d : Daemon) : Daemon :=
  {| Name := Name d; Commands := Commands d; Logger := Logger d;
     Workdir := Workdir d; cmd := cmd d; mu := mu d;
     exitError := e; done := done d |}.

Definition set_done (b : bool) (d : Daemon) : Daemon :=
  {| Name := Name d; Commands := Commands d; Logger := Logger d;
     Workdir := Workdir d; cmd := cmd d; mu := mu d;
     exitError := exitError d; done := b |}.

(** [d.cmd == nil || d.cmd.Process == nil] *)
Definition no_process (d : Daemon) : bool :=
  match cmd d with
  | None => true
  | Some c => match Process c with None => true | Some _ => false end
  end.

(** Signals. *)
Definition SIGINT : Z := 2.
Definition SIGKILL : Z := 9.
Definition SIGTERM : Z := 15.

(** *** The operations a method or goroutine performs *)

(** The channels of a [select]. *)
Inductive chan : Type :=
| ChCtxDone (ctx : Context)      (* <-ctx.Done() *)
| ChDone                         (* <-d.done *)
| ChAfter (seconds : Z).         (* <-time.After(...) *)

(** The two goroutines of [Start]. *)
Inductive goroutine : Type :=
| GoWatcher (ctx : Context)
| GoWaiter (ctx : Context).

(** An operation on the daemon, the operating system or the runtime,
    indexed by the type of what it gives back. *)
Inductive eff : Type -> Type :=
| MuLock : eff unit                               (* d.mu.Lock() *)
| MuUnlock : eff unit                             (* d.mu.Unlock() *)
| Load : eff Daemon                               (* a read of *d *)
| StoreCmd (c : option Cmd) : eff unit            (* d.cmd = c *)
| UpdateCmd (f : Cmd -> Cmd) : eff unit           (* d.cmd.F = v *)
| StoreExitError (e : option error) : eff unit    (* d.exitError = e *)
| CloseDone : eff unit                            (* close(d.done) *)
| RecvDone : eff unit                             (* <-d.done *)
| Select (cases : list chan) : eff nat            (* select, the case taken *)
| CtxErr (ctx : Context) : eff (option error)     (* ctx.Err() *)
| Getpgid (pid : Z) : eff (Z * option error)      (* syscall.Getpgid *)
| Kill (pid : Z) (sig : Z) : eff (option error)   (* syscall.Kill *)
| CmdStart : eff (Z * option error)               (* d.cmd.Start(), the pid *)
| CmdWait : eff (option error)                    (* d.cmd.Wait() *)
| Slog (level msg : string) : eff unit            (* slog.XxxContext *)
| Go (g : goroutine) : eff unit.                  (* go func() {...}() *)

(** A method body: it returns, panics, or performs an operation and goes
    on with what the operation gave back. *)
Inductive prog (R : Type) : Type :=
| Ret (r : R)
| Panic (msg : string)
| Vis {X : Type} (e : eff X) (k : X -> prog R).

Arguments Ret {R} r.
Arguments Panic {R} msg.
Arguments Vis {R X} e k.

Fixpoint bind {A B : Type} (p : prog A) (f : A -> prog B) : prog B :=
  match p with
  | Ret a => f a
  | Panic m => Panic m
  | Vis e k => Vis e (fun x => bind (k x) f)
  end.

Definition perform {X : Type} (e : eff X) : prog X := Vis e Ret.
Coercion perform : eff >-> prog.

Declare Scope prog_scope.
Delimit Scope prog_scope with prog.
Bind Scope prog_scope with prog.
Notation "x <- c ;; k" := (bind c (fun x => k))
  (at level 61, c at next level, right associativity) : prog_scope.
Notation "' pat <- c ;; k" :=
  (bind c (fun x => match x with pat => k end))
  (at level 61, pat pattern, c at next level, right associativity)
  : prog_scope.
Notation "c ;; k" := (bind c (fun _ => k))
  (at level 61, right associativity) : prog_scope.
Open Scope prog_scope.

(** [s[i]] and [s[lo:]] on a slice of strings, with Go's bounds checks. *)
Definition index (s : list string) (i : nat) : prog string :=
  match nth_error s i with
  | Some x => Ret x
  | None => Panic "runtime error: index out of range"
  end.

Definition slice_from (s : list string) (lo : nat) : prog (list string) :=
  if (lo <=? List.length s)%nat then Ret (skipn lo s)
  else Panic "runtime error: slice bounds out of range".

(** *** The methods of [Daemon] (second declaration of daemon.go) *)

Definition ErrDaemonNotRunning : error := Sentinel "daemon not running".

(** [func (d *Daemon) pgid() (int, error)] *)
Definition pgid : prog (Z * option error) :=
  d <- Load ;;
  match cmd d with
  | Some {| Process := Some pid |} => Getpgid pid
  | _ => Ret (-1, Some ErrDaemonNotRunning)
  end.

(** The [select] of [Stop], and what follows each of its cases. *)
Definition Stop_select (ctx : Context) (pgid : Z) : prog (option error) :=
  i <- Select [ChCtxDone ctx; ChDone; ChAfter 10] ;;
  match i with
  | 0%nat =>
      Kill (- pgid) SIGKILL ;;
      RecvDone ;;
      CtxErr ctx ;;
      Slog "INFO" "daemon %s stopped" ;;
      CtxErr ctx
  | 1%nat =>
      d <- Load ;;
      match exitError d with
      | Some e => Ret (Some e)
      | None => Ret None
      end
  | _ =>
      Kill (- pgid) SIGKILL ;;
      RecvDone ;;
      Ret (Some (ErrorsNew "graceful shutdown timed out"))
  end.

(** The body of [Stop] between [d.mu.Lock()] and the deferred
    [d.mu.Unlock()]. *)
Definition Stop_locked (ctx : Context) : prog (option error) :=
  d <- Load ;;
  if no_process d then Ret (Some ErrDaemonNotRunning) else
  '(pgid, err) <- pgid ;;
  match err with
  | Some err => Ret (Some (Errorf "pgid: %w" [] err))
  | None =>
    (* Graceful-stop *)
    err <- Kill (- pgid) SIGINT ;;
    match err with
    | Some err =>
        if negb (errors_Is err ErrProcessDone)
        then Ret (Some (Errorf "sigterm: %w" [] err))
        else Stop_select ctx pgid
    | None => Stop_select ctx pgid
    end
  end.

(** [func (d *Daemon) Stop(ctx context.Context) error] *)
Definition Stop (ctx : Context) : prog (option error) :=
  MuLock ;;
  r <- Stop_locked ctx ;;
  MuUnlock ;;
  Ret r.

(** [func (d *Daemon) Status() (DaemonStatus, error)] *)
Definition Status : prog (DaemonStatus * option error) :=
  d <- Load ;;
  if no_process d then Ret (DaemonStatusStopped, None) else
  '(pgid, err) <- pgid ;;
  match err with
  | Some err =>
      (* no such process *)
      if errors_Is err (Errno ESRCH)
      then StoreCmd None ;; Ret (DaemonStatusStopped, None)
      else Ret (DaemonStatusStopped, Some (Errorf "pgid: %w" [] err))
  | None =>
      err <- Kill (- pgid) 0 ;;
      match err with
      | Some err =>
          if errors_Is err ErrProcessDone
          then StoreCmd None ;; Ret (DaemonStatusStopped, None)
          else Ret (DaemonStatusStopped,
                    Some (Errorf "daemon %s is not running: %w" [Name d] err))
      | None => Ret (DaemonStatusRunning, None)
      end
  end.

(** The first goroutine of [Start], from the return of [d.Status()]
    on. *)
Definition watcher_react (ctx : Context) (status : DaemonStatus)
  (err : option error) : prog unit :=
  let stop :=
    err <- Stop ctx ;;
    match err with
    | Some _ => Slog "ERROR" "failed to stop daemon"
    | None => Slog "INFO" "daemon stopped successfully"
    end in
  match err with
  | Some _ => Slog "ERROR" "failed to get daemon status" ;; stop
  | None =>
      if negb (String.eqb status DaemonStatusRunning)
      then Slog "DEBUG" "daemon already stopped"
      else stop
  end.

(** The first goroutine of [Start]: it waits for the cancellation of the
    caller's context or for [d.done]. *)
Definition watcher (ctx : Context) : prog unit :=
  i <- Select [ChCtxDone ctx; ChDone] ;;
  match i with
  | 0%nat =>
      '(status, err) <- Status ;;
      watcher_react ctx status err
  | _ => Slog "DEBUG" "daemon already stopped"
  end.

(** The second goroutine of [Start], before its deferred
    [close(d.done)]. *)
Definition waiter_body : prog unit :=
  err <- CmdWait ;;
  match err with
  | Some err =>
      match errors_As_ExitError err with
      | Some ws =>
          if Signaled ws
          then Slog "DEBUG" "daemon stopped by signal"
          else if Exited ws && (ExitCode ws =? 0)
          then Slog "INFO" "daemon exited successfully"
          else
            Slog "ERROR" "daemon exited with error" ;;
            d <- Load ;;
            StoreExitError
              (Some (Errorf "daemon %s exited with error: %w" [Name d] err))
      | None => Slog "ERROR" "daemon exited with error"
      end
  | None => Slog "INFO" "daemon exited successfully"
  end.

Definition waiter (ctx : Context) : prog unit :=
  waiter_body ;;
  CloseDone.

Definition body (g : goroutine) : prog unit :=
  match g with
  | GoWatcher ctx => watcher ctx
  | GoWaiter ctx => waiter ctx
  end.

(** [func (d *Daemon) Start(ctx context.Context) error] *)
Definition Start (ctx : Context) : prog (option error) :=
  let dctx := WithoutCancel ctx in
  d <- Load ;;
  name <- index (Commands d) 0 ;;
  arg <- slice_from (Commands d) 1 ;;
  StoreCmd (Some (CommandContext dctx name arg)) ;;
  UpdateCmd (set_Stdout DaemonLogger) ;;
  UpdateCmd (set_Stderr DaemonLogger) ;;
  UpdateCmd (set_Dir (Workdir d)) ;;
  UpdateCmd (set_Setpgid true) ;;
  '(_, err) <- CmdStart ;;
  match err with
  | Some err =>
      Ret (Some (Errorf "failed to start daemon %s: %w" [Name d] err))
  | None =>
      Go (GoWatcher ctx) ;;
      Go (GoWaiter ctx) ;;
      Ret None
  end.

(** [Start] of the first declaration of daemon.go: the child is spawned
    under the caller's context and no goroutine is started. *)
Definition Start_v1 (ctx : Context) : prog (option error) :=
  d <- Load ;;
  name <- index (Commands d) 0 ;;
  arg <- slice_from (Commands d) 1 ;;
  StoreCmd (Some (CommandContext ctx name arg)) ;;
  UpdateCmd (set_Stdout DaemonLogger) ;;
  UpdateCmd (set_Stderr DaemonLogger) ;;
  UpdateCmd (set_Dir (Workdir d)) ;;
  UpdateCmd (set_Setpgid true) ;;
  '(_, err) <- CmdStart ;;
  match err with
  | Some err =>
      Ret (Some (Errorf "failed to start daemon %s: %w" [Name d] err))
  | None => Ret None
  end.

(** *** What an operation does *)

(** The daemon and the contexts cancelled so far. *)
Record world : Type := {
  dmn : Daemon;
  fired : list nat
}.

Definition on_dmn (f : Daemon -> Daemon) (w : world) : world :=
  {| dmn := f (dmn w); fired := fired w |}.

Definition ready (w : world) (c : chan) : bool :=
  match c with
  | ChCtxDone ctx => ctx_done (fired w) ctx
  | ChDone => done (dmn w)
  | ChAfter _ => true
  end.

Inductive reply (X : Type) : Type :=
| Continue (x : X) (w : world)
| Blocked
| Fault (msg : string).

Arguments Continue {X} x w.
Arguments Blocked {X}.
Arguments Fault {X} msg.

(** [handle e w a]: the operation [e] in the world [w].  The results of
    system calls, of the spawn, of the wait and the case a [select] takes
    are decided outside the program: they are the answer [a], which the
    other operations ignore.  A timer can be ready at any time; [Blocked]
    is an operation that cannot proceed, or cannot proceed with this
    answer. *)
Definition handle {X : Type} (e : eff X) (w : world) : X -> reply X :=
  match e in eff X return X -> reply X with
  | MuLock => fun _ =>
      if mu (dmn w) then Blocked else Continue tt (on_dmn (set_mu true) w)
  | MuUnlock => fun _ =>
      if mu (dmn w) then Continue tt (on_dmn (set_mu false) w)
      else Fault "sync: unlock of unlocked mutex"
  | Load => fun _ => Continue (dmn w) w
  | StoreCmd c => fun _ => Continue tt (on_dmn (set_cmd c) w)
  | UpdateCmd f => fun _ =>
      match cmd (dmn w) with
      | Some c => Continue tt (on_dmn (set_cmd (Some (f c))) w)
      | None => Fault "nil pointer dereference"
      end
  | StoreExitError e => fun _ => Continue tt (on_dmn (set_exitError e) w)
  | CloseDone => fun _ =>
      if done (dmn w) then Fault "close of closed channel"
      else Continue tt (on_dmn (set_done true) w)
  | RecvDone => fun _ =>
      if done (dmn w) then Continue tt w else Blocked
  | Select cases => fun i =>
      match nth_error cases i with
      | Some c => if ready w c then Continue i w else Blocked
      | None => Blocked
      end
  | CtxErr ctx => fun _ => Continue (ctx_err (fired w) ctx) w
  | Getpgid _ => fun a => Continue a w
  | Kill _ _ => fun a => Continue a w
  | CmdStart => fun a =>
      match cmd (dmn w) with
      | Some c =>
          match snd a with
          | Some _ => Continue a w
          | None =>
              Continue a
                (on_dmn (set_cmd (Some (set_Process (Some (fst a)) c))) w)
          end
      | None => Fault "nil pointer dereference"
      end
  | CmdWait => fun a => Continue a w
  | Slog _ _ => fun _ => Continue tt w
  | Go _ => fun _ => Continue tt w
  end.

(** An operation performed, with what it gave back. *)
Inductive event : Type :=
| Ev : forall X : Type, eff X -> X -> event.

Arguments Ev {X} e x.

(** *** One method run alone *)

(** The answers of the environment, by position in the run. *)
Definition env : Type := nat -> forall X : Type, eff X -> X.

Inductive outcome (R : Type) : Type :=
| Returned (r : R)
| Panicked (msg : string)
| Waiting.

Arguments Returned {R} r.
Arguments Panicked {R} msg.
Arguments Waiting {R}.

(** The result of a run: how it ended, the world it left, and the
    operations performed, latest first. *)
Record run (R : Type) : Type := {
  out : outcome R;
  final : world;
  trace : list event
}.

Arguments out {R} r.
Arguments final {R} r.
Arguments trace {R} r.

Fixpoint exec_from {R : Type} (o : env) (n : nat) (p : prog R) (w : world)
  (h : list event) : run R :=
  match p with
  | Ret r => {| out := Returned r; final := w; trace := h |}
  | Panic m => {| out := Panicked m; final := w; trace := h |}
  | Vis e k =>
      match handle e w (o n _ e) with
      | Continue x w' => exec_from o (S n) (k x) w' (Ev e x :: h)
      | Blocked => {| out := Waiting; final := w; trace := h |}
      | Fault m => {| out := Panicked m; final := w; trace := h |}
      end
  end.

Definition exec {R : Type} (o : env) (p : prog R) (w : world) : run R :=
  exec_from o 0 p w [].

(** *** Reading a trace *)


Definition is_select (ev : event) : bool :=
  match ev with
  | Ev e _ =>
      match e with
      | Select [ChCtxDone _; ChDone; ChAfter _] => true
      | _ => false
      end
  end.


(** The process group ids that [syscall.Getpgid] gave. *)
Definition pgid_of (ev : event) : option Z :=
  match ev with
  | Ev e x =>
      match e in eff X return X -> option Z with
      | Getpgid _ => fun a =>
          match snd a with None => Some (fst a) | Some _ => None end
      | _ => fun _ => None
      end x
  end.

(** [signalled_to target ev]: [ev] is a call of [syscall.Kill] that asks
    for [SIGINT], [SIGTERM] or [SIGKILL] to be sent to [target]. *)
Definition signalled_to (target : Z) (ev : event) : bool :=
  match ev with
  | Ev e _ =>
      match e with
      | Kill pid sig =>
          (pid =? target) &&
          ((sig =? SIGINT) || (sig =? SIGTERM) || (sig =? SIGKILL))
      | _ => false
      end
  end.

(** The group whose id [Getpgid] gave was signalled: some call in the
    trace sent a termination signal to the negated group id. *)
Definition group_signalled (h : list event) : bool :=
  existsb
    (fun ev =>
       match pgid_of ev with
       | Some pgid => existsb (signalled_to (- pgid)) h
       | None => false
       end) h.

Definition has_pgid (g : Z) (ev : event) : bool :=
  match pgid_of ev with
  | Some g' => g' =? g
  | None => false
  end.

(** The goroutines started in a trace, latest first. *)
Fixpoint spawned (h : list event) : list goroutine :=
  match h with
  | [] => []
  | Ev e _ :: h' =>
      match e with
      | Go g => g :: spawned h'
      | _ => spawned h'
      end
  end.


(** *** The daemon with its callers and goroutines *)

(** A method call or goroutine in progress, with the operations it has
    performed, latest first. *)
Record thread (R : Type) : Type := {
  code : prog R;
  hist : list event
}.

Arguments code {R} t.
Arguments hist {R} t.

Definition fresh {R : Type} (p : prog R) : thread R :=
  {| code := p; hist := [] |}.

(** One answer of the environment for each operation. *)
Definition answers : Type := forall X : Type, eff X -> X.

Definition spawn_of {X : Type} (e : eff X) : option goroutine :=
  match e with
  | Go g => Some g
  | _ => None
  end.

(** One operation of a thread. *)
Definition advance {R : Type} (a : answers) (w : world) (t : thread R)
  : option (world * thread R * option goroutine) :=
  match code t with
  | Vis e k =>
      match handle e w (a _ e) with
      | Continue x w' =>
          Some (w', {| code := k x; hist := Ev e x :: hist t |}, spawn_of e)
      | Fault m => Some (w, {| code := Panic m; hist := hist t |}, None)
      | Blocked => None
      end
  | _ => None
  end.

(** The daemon shared by one call of [Start], any number of calls of
    [Stop] and of [Status], and the goroutines started so far. *)
Record pool : Type := {
  shared : world;
  starter : thread (option error);
  stoppers : list (thread (option error));
  pollers : list (thread (DaemonStatus * option error));
  goroutines : list (goroutine * thread unit)
}.

Definition replace_nth {A : Type} (i : nat) (x : A) (l : list A) : list A :=
  firstn i l ++ x :: skipn (S i) l.

Definition start_goroutine (g : option goroutine)
  (gs : list (goroutine * thread unit)) : list (goroutine * thread unit) :=
  match g with
  | Some g => gs ++ [(g, fresh (body g))]
  | None => gs
  end.

(** What can happen next: a thread performs its next operation, a context
    is cancelled, or the child writes to its output. *)
Inductive move : Type :=
| RunStarter (a : answers)
| RunStopper (i : nat) (a : answers)
| RunPoller (i : nat) (a : answers)
| RunGoroutine (i : nat) (a : answers)
| Cancel (id : nat)
| ChildWrites (p : list byte).

Definition play (m : move) (p : pool) : option pool :=
  match m with
  | RunStarter a =>
      match advance a (shared p) (starter p) with
      | Some (w, t, g) =>
          Some {| shared := w; starter := t; stoppers := stoppers p;
                  pollers := pollers p;
                  goroutines := start_goroutine g (goroutines p) |}
      | None => None
      end
  | RunStopper i a =>
      match nth_error (stoppers p) i with
      | Some t0 =>
          match advance a (shared p) t0 with
          | Some (w, t, g) =>
              Some {| shared := w; starter := starter p;
                      stoppers := replace_nth i t (stoppers p);
                      pollers := pollers p;
                      goroutines := start_goroutine g (goroutines p) |}
          | None => None
          end
      | None => None
      end
  | RunPoller i a =>
      match nth_error (pollers p) i with
      | Some t0 =>
          match advance a (shared p) t0 with
          | Some (w, t, g) =>
              Some {| shared := w; starter := starter p;
                      stoppers := stoppers p;
                      pollers := replace_nth i t (pollers p);
                      goroutines := start_goroutine g (goroutines p) |}
          | None => None
          end
      | None => None
      end
  | RunGoroutine i a =>
      match nth_error (goroutines p) i with
      | Some (name, t0) =>
          match advance a (shared p) t0 with
          | Some (w, t, g) =>
              Some {| shared := w; starter := starter p;
                      stoppers := stoppers p; pollers := pollers p;
                      goroutines :=
                        start_goroutine g
                          (replace_nth i (name, t) (goroutines p)) |}
          | None => None
          end
      | None => None
      end
  | Cancel id =>
      Some {| shared := {| dmn := dmn (shared p);
                           fired := id :: fired (shared p) |};
              starter := starter p; stoppers := stoppers p;
              pollers := pollers p; goroutines := goroutines p |}
  | ChildWrites bytes =>
      if no_process (dmn (shared p)) then None
      else
        Some {| shared :=
                  on_dmn
                    (fun d => set_Logger (fst (Write (Logger d) bytes)) d)
                    (shared p);
                starter := starter p; stoppers := stoppers p;
                pollers := pollers p; goroutines := goroutines p |}
  end.

Fixpoint play_all (ms : list move) (p : pool) : option pool :=
  match ms with
  | [] => Some p
  | m :: ms' =>
      match play m p with
      | Some p' => play_all ms' p'
      | None => None
      end
  end.

(** [reaches p p']: some sequence of moves leads from [p] to [p']. *)
Definition reaches (p p' : pool) : Prop :=
  exists ms, play_all ms p = Some p'.

(** A new daemon, on which [Start ctx] is called once, [Stop] once with
    each context of [stops], and [Status] [polls] times, in any order and
    interleaving. *)
Definition initial (name : string) (commands : list string)
  (workdir : string) (ctx : Context) (stops : list Context) (polls : nat)
  : pool :=
  {| shared := {| dmn := NewDaemon name commands workdir; fired := [] |};
     starter := fresh (Start ctx);
     stoppers := map (fun c => fresh (Stop c)) stops;
     pollers := repeat (fresh Status) polls;
     goroutines := [] |}.

Definition is_waiter (g : goroutine * thread unit) : bool :=
  match fst g with
  | GoWaiter _ => true
  | GoWatcher _ => false
  end.

Definition returned {R : Type} (t : thread R) : bool :=
  match code t with
  | Ret _ => true
  | _ => false
  end.

(** The background waiter of [Start] has been started and has run to its
    end. *)
Definition waiter_completed (p : pool) : Prop :=
  exists g, In g (goroutines p) /\ is_waiter g = true /\
            forall g', In g' (goroutines p) -> is_waiter g' = true ->
                       returned (snd g') = true.

(** [stop_returned p h]: [h] is the trace of a thread of [p] that has run
    to its end and in which [Stop] may have been called: a caller's call
    of [Stop], or the goroutine of [Start] that watches the caller's
    context and calls [d.Stop(ctx)] itself. *)
Definition stop_returned (p : pool) (h : list event) : Prop :=
  (exists t, In t (stoppers p) /\ returned t = true /\ hist t = h) \/
  (exists g, In g (goroutines p) /\ is_waiter g = false /\
             returned (snd g) = true /\ hist (snd g) = h).

(** *** Invariants of the threads *)

(** [rely w w']: what every operation of every thread respects, a closed
    [d.done] stays closed. *)
Definition rely (w w' : world) : Prop :=
  done (dmn w) = true -> done (dmn w') = true.

(** [safe Q p h w]: whatever the other threads and the environment do
    within [rely], the thread that has performed [h] and goes on as [p]
    returns only with [Q] satisfied. *)
Fixpoint safe {R : Type} (Q : list event -> R -> world -> Prop)
  (p : prog R) (h : list event) (w : world) : Prop :=
  match p with
  | Ret r => forall w1, rely w w1 -> Q h r w1
  | Panic _ => True
  | Vis e k =>
      forall w1 a, rely w w1 ->
        match handle e w1 a with
        | Continue x w2 => safe Q (k x) (Ev e x :: h) w2
        | _ => True
        end
  end.

(** What [Stop] guarantees when it returns after its [select]. *)
Definition Stop_post {R : Type} (h : list event) (r : R) (w : world) : Prop :=
  existsb is_select h = true ->
  group_signalled h = true /\ done (dmn w) = true.

(** [may_spawn n p]: [p] never closes [d.done] and starts the waiter
    goroutine at most [n] times. *)
Fixpoint may_spawn {R : Type} (n : nat) (p : prog R) : Prop :=
  match p with
  | Ret _ => True
  | Panic _ => True
  | Vis e k =>
      match e in eff X return (X -> prog R) -> Prop with
      | CloseDone => fun _ => False
      | Go (GoWaiter _) => fun k =>
          match n with
          | O => False
          | S m => forall x, may_spawn m (k x)
          end
      | _ => fun k => forall x, may_spawn n (k x)
      end k
  end.

(** [closer p]: [p] starts no goroutine and does not return before it
    has closed [d.done], which is the last thing it does. *)
Fixpoint closer (p : prog unit) : Prop :=
  match p with
  | Ret _ => False
  | Panic _ => True
  | Vis e k =>
      match e in eff X return (X -> prog unit) -> Prop with
      | CloseDone => fun k => forall x, k x = Ret tt
      | Go _ => fun _ => False
      | _ => fun k => forall x, closer (k x)
      end k
  end.

Definition spawns_waiter (g : option goroutine) : bool :=
  match g with
  | Some (GoWaiter _) => true
  | _ => false
  end.


Definition waiters (gs : list (goroutine * thread unit)) : nat :=
  List.length (filter is_waiter gs).

Definition goroutine_ok (w : world) (g : goroutine * thread unit) : Prop :=
  if is_waiter g
  then if done (dmn w) then code (snd g) = Ret tt else closer (code (snd g))
  else may_spawn 0 (code (snd g)) /\
       safe Stop_post (code (snd g)) (hist (snd g)) w.

(** The invariant of the pool. *)
Record pool_inv (p : pool) : Prop := {
  inv_starter :
    exists n, may_spawn n (code (starter p)) /\
              (n + waiters (goroutines p) <= 1)%nat;
  inv_done : done (dmn (shared p)) = true -> waiters (goroutines p) = 1%nat;
  inv_stoppers :
    Forall (fun t => may_spawn 0 (code t) /\
                     safe Stop_post (code t) (hist t) (shared p))
           (stoppers p);
  inv_pollers : Forall (fun t => may_spawn 0 (code t)) (pollers p);
  inv_goroutines : Forall (goroutine_ok (shared p)) (goroutines p)
}.

(** *** Concrete environments and runs *)

(** What the environment answers to the spawn, the wait, the system
    calls and the selects; the other operations need no answer. *)
Record os_answers : Type := {
  on_select : nat;
  on_getpgid : Z * option error;
  on_kill : option error;
  on_start : Z * option error;
  on_wait : option error
}.

Definition answer (s : os_answers) : answers :=
  fun X e =>
    match e in eff X return X with
    | MuLock => tt
    | MuUnlock => tt
    | Load => NewDaemon "" [] ""
    | StoreCmd _ => tt
    | UpdateCmd _ => tt
    | StoreExitError _ => tt
    | CloseDone => tt
    | RecvDone => tt
    | Select _ => on_select s
    | CtxErr _ => None
    | Getpgid _ => on_getpgid s
    | Kill _ _ => on_kill s
    | CmdStart => on_start s
    | CmdWait => on_wait s
    | Slog _ _ => tt
    | Go _ => tt
    end.

(** The child is spawned as process 4242, leader of its group, every
    system call succeeds, and the child ends on the signal it is sent. *)
Definition calm : os_answers :=
  {| on_select := 0; on_getpgid := (4242, None); on_kill := None;
     on_start := (4242, None);
     on_wait := Some (ExitError (WSignaled SIGINT)) |}.

Definition with_select (i : nat) (s : os_answers) : os_answers :=
  {| on_select := i; on_getpgid := on_getpgid s; on_kill := on_kill s;
     on_start := on_start s; on_wait := on_wait s |}.

Definition with_kill (r : option error) (s : os_answers) : os_answers :=
  {| on_select := on_select s; on_getpgid := on_getpgid s; on_kill := r;
     on_start := on_start s; on_wait := on_wait s |}.

Definition with_wait (r : option error) (s : os_answers) : os_answers :=
  {| on_select := on_select s; on_getpgid := on_getpgid s;
     on_kill := on_kill s; on_start := on_start s; on_wait := r |}.

Definition always (s : os_answers) : env := fun _ => answer s.

(** The daemon of [TestStartStop]. *)
Definition catproc : world :=
  {| dmn := NewDaemon "catproc" ["cat"] "/tmp"; fired := [] |}.

(** The same daemon once [Start] has returned. *)
Definition catproc_started : world :=
  final (exec (always calm) (Start Background) catproc).

(** One call of [Start] and one call of [Stop] on the daemon [catproc]. *)
Definition catproc_pool : pool :=
  initial "catproc" ["cat"] "/tmp" Background [Background] 0.

(** [Start] runs to its end; [Stop] sends its signal and reaches its
    [select]; the child ends, [Wait] gives [r] and the waiter runs to its
    end; [Stop] takes the case of [d.done] and returns. *)
Definition natural_exit (r : option error) : list move :=
  repeat (RunStarter (answer calm)) 9 ++
  repeat (RunStopper 0 (answer calm)) 5 ++
  repeat (RunGoroutine 1 (answer (with_wait r calm))) 3 ++
  repeat (RunStopper 0 (answer (with_select 1 calm))) 3.

(** The command that [Start] builds from the command line [name :: arg]
    and hands to the spawn. *)
Definition command_of (ctx : Context) (name : string) (arg : list string)
  (workdir : string) : Cmd :=
  set_Setpgid true
    (set_Dir workdir
       (set_Stderr DaemonLogger
          (set_Stdout DaemonLogger (CommandContext ctx name arg)))).


Definition wait_error : error := SyscallError "wait" (Errno ECHILD).



(** The pool after the moves [ms], and its first call of [Stop]. *)
Definition after (ms : list move) (p : pool) : pool :=
  match play_all ms p with
  | Some p' => p'
  | None => p
  end.

Definition first_stopper (p : pool) : thread (option error) :=
  nth 0 (stoppers p) (fresh (Panic "no call of Stop")).

(** The same daemon started under a context that can be cancelled, with
    no caller of [Stop]. *)
Definition watched_pool : pool :=
  initial "catproc" ["cat"] "/tmp" (WithCancel 0 Background) [] 0.

(** [Start] runs to its end and its context is cancelled; the watcher
    asks for the status, calls [Stop] and reaches [<-d.done] after
    [SIGKILL]; the waiter runs to its end; the watcher returns. *)
Definition cancellation : list move :=
  repeat (RunStarter (answer calm)) 9 ++
  [Cancel 0] ++
  repeat (RunGoroutine 0 (answer calm)) 12 ++
  repeat (RunGoroutine 1 (answer calm)) 3 ++
  repeat (RunGoroutine 0 (answer calm)) 6.

Definition watcher_thread (p : pool) : thread unit :=
  snd (nth 0 (goroutines p) (GoWatcher Background, fresh (Panic "no goroutine"))).

End Supervisor.

(** ** daemonize.go *)

Module Tools.
Import Logger Supervisor.

(** *** Requests and results *)

(** A JSON value as [encoding/json] decodes it into [any].  A JSON number
    becomes a [float64]; the numbers JSON can write are finite, and a
    finite [float64] is the rational number it stands for. *)
#[warnings="-register-all"] Inductive any : Type :=
| JNull
| JBool (b : bool)
| JNumber (f : Q)
| JString (s : string)
| JArray (items : list any)
| JObject (fields : list (string * any)).

(** [request.Params.Arguments], a [map[string]any]. *)
Definition Arguments : Type := list (string * any).

(** [args[key]], [None] being the nil interface of a missing key. *)
Fixpoint arg (args : Arguments) (key : string) : option any :=
  match args with
  | [] => None
  | (k, v) :: rest => if String.eqb k key then Some v else arg rest key
  end.

(** The type assertions [v.(string)], [v.([]any)] and [v.(float64)]. *)
Definition as_string (v : option any) : option string :=
  match v with
  | Some (JString s) => Some s
  | _ => None
  end.

Definition as_array (v : option any) : option (list any) :=
  match v with
  | Some (JArray items) => Some items
  | _ => None
  end.

Definition as_float64 (v : option any) : option Q :=
  match v with
  | Some (JNumber f) => Some f
  | _ => None
  end.

(** [float64(n)] for an [int64] that a [float64] holds exactly (up to
    [2^53] in magnitude; a line count is at most 1024), and [int64(f)],
    which discards the fraction. *)
Definition float64_of_int64 (n : Z) : Q := inject_Z n.

Definition int64_of_float64 (f : Q) : Z := Z.quot (Qnum f) (Zpos (Qden f)).

Definition float64_lt (a b : Q) : bool := negb (Qle_bool b a).

(** The results a handler builds with [mcp.NewToolResultText],
    [mcp.NewToolResultError] and [mcp.NewToolResultErrorFromErr]. *)
Inductive CallToolResult : Type :=
| NewToolResultText (text : string)
| NewToolResultError (text : string)
| NewToolResultErrorFromErr (text : string) (err : error).

Definition nl : string := String newline "".

(** [%d] of [fmt]. *)
Definition fmt_d (n : Z) : string := NilZero.string_of_int (Z.to_int n).

(** *** The server *)

(** [type Server struct]: [Daemons] is a [map[string]*Daemon], kept as
    the list of its entries, one for each key.  Every daemon is
    registered under one name only, so that a daemon is written through
    its pointer by writing the entry of its name. *)
Record Server : Type := {
  Daemons : list (string * Daemon)
}.


(** [m[name]], [delete(m, name)] and [m[name] = d]. *)
Fixpoint map_get (name : string) (m : list (string * Daemon))
  : option Daemon :=
  match m with
  | [] => None
  | (k, d) :: rest => if String.eqb k name then Some d else map_get name rest
  end.

Definition map_delete (name : string) (m : list (string * Daemon))
  : list (string * Daemon) :=
  filter (fun e => negb (String.eqb (fst e) name)) m.

Definition map_set (name : string) (d : Daemon) (m : list (string * Daemon))
  : list (string * Daemon) :=
  (name, d) :: map_delete name m.


Definition set_daemon (name : string) (d : Daemon) (s : Server) : Server :=
  {| Daemons := map_set name d (Daemons s) |}.

Definition delete_daemon (name : string) (s : Server) : Server :=
  {| Daemons := map_delete name (Daemons s) |}.

(** What a call of a handler gives: its result when it returns (the
    handlers always return a nil error), the server it leaves, and the
    operations that the methods of [Daemon] it called have performed,
    latest first. *)
Record handled : Type := {
  result : outcome CallToolResult;
  server : Server;
  ops : list event
}.

Definition respond (r : CallToolResult) (s : Server) (h : list event)
  : handled :=
  {| result := Returned r; server := s; ops := h |}.

(** A method of [Daemon] called on the daemon [d], after the operations
    [h] of the handler so far. *)
Definition call {R : Type} (o : env) (fired : list nat) (h : list event)
  (p : prog R) (d : Daemon) : run R :=
  exec_from o (List.length h) p {| dmn := d; fired := fired |} h.

(** *** The tool [daemonize_start] *)

(** The loop that copies [_command] into a [[]string]: it stops at the
    first element that is not a string. *)
Fixpoint strings_of (items : list any) : option (list string) :=
  match items with
  | [] => Some []
  | JString str :: rest =>
      match strings_of rest with
      | Some command => Some (str :: command)
      | None => None
      end
  | _ :: _ => None
  end.

(** The handler of [daemonize_start]; [sctx] is the context that
    [Server.Start] was given. *)
Definition start_tool (o : env) (sctx : Context) (fired : list nat)
  (s : Server) (args : Arguments) : handled :=
  match as_string (arg args "name") with
  | None => respond (NewToolResultError "invalid name parameter") s []
  | Some name =>
  match as_array (arg args "command") with
  | None => respond (NewToolResultError "invalid command parameter") s []
  | Some _command =>
  match strings_of _command with
  | None => respond (NewToolResultError "invalid command parameter") s []
  | Some command =>
  match as_string (arg args "workdir") with
  | None => respond (NewToolResultError "invalid workdir parameter") s []
  | Some workdir =>
      let daemon := NewDaemon name command workdir in
      let r := call o fired [] (Start sctx) daemon in
      match out r with
      | Returned (Some err) =>
          respond (NewToolResultErrorFromErr
                     ("failed to start daemon " ++ name) err) s (trace r)
      | Returned None =>
          respond (NewToolResultText "Daemon started successfully")
            (set_daemon name (dmn (final r)) s) (trace r)
      | Panicked msg =>
          {| result := Panicked msg; server := s; ops := trace r |}
      | Waiting => {| result := Waiting; server := s; ops := trace r |}
      end
  end end end end.

(** *** The tool [daemonize_stop] *)

Definition stop_tool (o : env) (sctx : Context) (fired : list nat)
  (s : Server) (args : Arguments) : handled :=
  match as_string (arg args "name") with
  | None => respond (NewToolResultError "invalid name parameter") s []
  | Some name =>
  match map_get name (Daemons s) with
  | None =>
      respond (NewToolResultError ("daemon " ++ name ++ " not found")) s []
  | Some daemon =>
      let r := call o fired [] Status daemon in
      let s1 := set_daemon name (dmn (final r)) s in
      match out r with
      | Returned (_, Some err) =>
          respond (NewToolResultErrorFromErr
                     ("failed to stop daemon " ++ name) err) s1 (trace r)
      | Returned (status, None) =>
          if negb (String.eqb status DaemonStatusRunning)
          then respond (NewToolResultText "Daemon already stopped")
                 (delete_daemon name s1) (trace r)
          else
            let r2 := call o fired (trace r) (Stop sctx) (dmn (final r)) in
            let s2 := set_daemon name (dmn (final r2)) s in
            match out r2 with
            | Returned (Some err) =>
                respond (NewToolResultErrorFromErr
                           ("failed to stop daemon " ++ name) err)
                  s2 (trace r2)
            | Returned None =>
                respond (NewToolResultText "Daemon stopped successfully")
                  (delete_daemon name s2) (trace r2)
            | Panicked msg =>
                {| result := Panicked msg; server := s2; ops := trace r2 |}
            | Waiting =>
                {| result := Waiting; server := s2; ops := trace r2 |}
            end
      | Panicked msg =>
          {| result := Panicked msg; server := s1; ops := trace r |}
      | Waiting => {| result := Waiting; server := s1; ops := trace r |}
      end
  end end.

(** *** The tool [daemonize_list] *)







(** *** The tool [daemonize_logs] *)

(** The loop that writes the lines read, the [i]-th of them numbered
    [int64(i)+1+offset]. *)
Fixpoint logs_loop (offset : Z) (i : Z) (lines : list string)
  (text : string) : string :=
  match lines with
  | [] => text
  | line :: rest =>
      logs_loop offset (i + 1) rest
        (text ++ "  " ++ fmt_d (i + 1 + offset) ++ ": " ++ line ++ nl)
  end.

Definition set_logger (name : string) (d : Daemon) (l : memoryLogger)
  (s : Server) : Server :=
  set_daemon name (set_Logger l d) s.

Definition logs_tool (s : Server) (args : Arguments)
  : CallToolResult * Server :=
  match as_string (arg args "name") with
  | None => (NewToolResultError "invalid name parameter", s)
  | Some name =>
  match map_get name (Daemons s) with
  | None => (NewToolResultError ("daemon " ++ name ++ " not found"), s)
  | Some daemon =>
  match as_float64 (arg args "tail") with
  | None => (NewToolResultError "invalid tail parameter", s)
  | Some tail =>
      if float64_lt tail 0
      then (NewToolResultError "tail parameter must be non-negative", s)
      else if Qeq_bool tail 0
      then (NewToolResultText "No logs available", s)
      else
        let tail :=
          if float64_lt (float64_of_int64 (Lines (Logger daemon))) tail
          then float64_of_int64 (Lines (Logger daemon)) else tail in
        let offset := Lines (Logger daemon) - int64_of_float64 tail in
        let offset := Z.max 0 offset in
        let '(logger, (lines, err)) := ReadLine (Logger daemon) offset in
        let s1 := set_logger name daemon logger s in
        match err with
        | Some err =>
            (NewToolResultErrorFromErr "failed to read logs" err, s1)
        | None =>
            (NewToolResultText
               (logs_loop offset 0 lines ("Daemon logs:" ++ nl)), s1)
        end
  end end end.

(** The same handler in its later declaration: the arguments are read
    with [request.RequireString] and [request.RequireInt], whose results
    for this request are [name] and [tail], and an empty read is no
    error. *)
Definition logs_tool_int (s : Server) (name : string * option error)
  (tail : Z * option error) : CallToolResult * Server :=
  match snd name with
  | Some err => (NewToolResultErrorFromErr "invalid name parameter" err, s)
  | None =>
  match map_get (fst name) (Daemons s) with
  | None =>
      (NewToolResultError ("daemon " ++ fst name ++ " not found"), s)
  | Some daemon =>
  match snd tail with
  | Some err => (NewToolResultErrorFromErr "invalid tail parameter" err, s)
  | None =>
      let tail := fst tail in
      if tail <? 0
      then (NewToolResultError "tail parameter must be non-negative", s)
      else if tail =? 0
      then (NewToolResultText "No logs available", s)
      else
        let tail :=
          if tail >? Lines (Logger daemon) then Lines (Logger daemon)
          else tail in
        let offset := Lines (Logger daemon) - tail in
        let offset := Z.max 0 offset in
        let '(logger, (lines, err)) := ReadLine (Logger daemon) offset in
        let s1 := set_logger (fst name) daemon logger s in
        match err with
        | Some err =>
            if errors_Is err EOF
            then (NewToolResultText "No logs available", s1)
            else (NewToolResultErrorFromErr "failed to read logs" err, s1)
        | None =>
            (NewToolResultText
               (logs_loop offset 0 lines ("Daemon logs:" ++ nl)), s1)
        end
  end end end.

(** *** The end of [Server.Start] (later declaration) *)



End Tools.

(** ** Concrete requests, daemons and environments *)

Module Cases.
Import Logger Supervisor Tools.

Definition not_found : error := ErrorsNew "exec: no command".

(** The spawn fails. *)
Definition failing_spawn : os_answers :=
  {| on_select := 0; on_getpgid := (4242, None); on_kill := None;
     on_start := (0, Some not_found);
     on_wait := on_wait calm |}.

(** The lines [ls] as [daemonize_logs] prints them, the first of them
    numbered [from]. *)
Fixpoint numbered (from : Z) (ls : list string) : string :=
  match ls with
  | [] => ""
  | line :: rest =>
      "  " ++ fmt_d from ++ ": " ++ line ++ nl ++ numbered (from + 1) rest
  end.

(** The daemon [catproc] with three lines in its buffer, registered; and
    requests for its last two lines. *)
Definition logging : Daemon := set_Logger three_lines (dmn catproc_started).

Definition one_daemon : Server := {| Daemons := [("catproc", logging)] |}.

Definition last_two : Arguments :=
  [("name", JString "catproc"); ("tail", JNumber (5 # 2))].



Definition stop_cat : Arguments := [("name", JString "catproc")].

(** The registry once [Status] has cleared the handle of [catproc]. *)
Definition stale_daemon : Server :=
  {| Daemons := [("catproc", set_cmd None logging)] |}.



End Cases.

(** ** The mutex of a daemon among its threads *)

Module Mutex.
Import Logger Supervisor.

(** [holding h]: the thread that has performed [h] holds [d.mu]: its
    latest operation on the mutex is a lock. *)
Fixpoint holding (h : list event) : bool :=
  match h with
  | [] => false
  | Ev e _ :: h' =>
      match e with
      | MuLock => true
      | MuUnlock => false
      | _ => holding h'
      end
  end.

Definition unlock_panic : string := "sync: unlock of unlocked mutex".

(** [locks_paired held p]: from a point where it holds the mutex or not,
    as [held] tells, [p] locks and unlocks in turn, returns without the
    mutex, and has not panicked on an unlock. *)
Fixpoint locks_paired {R : Type} (held : bool) (p : prog R) : Prop :=
  match p with
  | Ret _ => held = false
  | Panic msg => msg <> unlock_panic
  | Vis e k =>
      match e in eff X return (X -> prog R) -> Prop with
      | MuLock => fun k => held = false /\ forall x, locks_paired true (k x)
      | MuUnlock => fun k => held = true /\ forall x, locks_paired false (k x)
      | _ => fun k => forall x, locks_paired held (k x)
      end k
  end.

(** The number of threads of a pool that hold the mutex. *)
Definition count_holding (hs : list (list event)) : nat :=
  List.length (filter holding hs).

Definition holders (p : pool) : nat :=
  count_holding [hist (starter p)] +
  count_holding (map (fun t => hist t) (stoppers p)) +
  count_holding (map (fun t => hist t) (pollers p)) +
  count_holding (map (fun g => hist (snd g)) (goroutines p)).

Definition locked (w : world) : nat := if mu (dmn w) then 1 else 0.

Definition paired {R : Type} (t : thread R) : Prop :=
  locks_paired (holding (hist t)) (code t).

Record mutex_inv (p : pool) : Prop := {
  mi_starter : paired (starter p);
  mi_stoppers : Forall (fun t => paired t) (stoppers p);
  mi_pollers : Forall (fun t => paired t) (pollers p);
  mi_goroutines : Forall (fun g => paired (snd g)) (goroutines p);
  mi_count : holders p = locked (shared p)
}.

(** Two calls of [Stop] on the running daemon [catproc]: the first has
    taken the mutex and waits in its [select]. *)
Definition two_stops : pool :=
  initial "catproc" ["cat"] "/tmp" Background [Background; Background] 0.

Definition first_waits : list move :=
  repeat (RunStarter (answer calm)) 9 ++
  repeat (RunStopper 0 (answer calm)) 5.

End Mutex.


(** * Properties *)

(** ** The log buffer *)

Module LoggerProps.
Import Logger.

(** *** Strings seen from their last character *)

Lemma string_snoc_cases (s : string) :
  s = "" \/ exists t c, s = (t ++ String c "")%string.
Proof.
  induction s as [|a s IH]; [now left|right].
  destruct IH as [->|(t & c & ->)].
  - now exists "", a.
  - now exists (String a t), c.
Qed.

Lemma length_snoc (t : string) (c : ascii) :
  String.length ((t ++ String c "")%string) = S (String.length t).
Proof. induction t as [|a t IH]; simpl; congruence. Qed.

Lemma get_snoc (t : string) (c : ascii) :
  String.get (String.length t) ((t ++ String c "")%string) = Some c.
Proof. induction t as [|a t IH]; simpl; auto. Qed.

Lemma substring_snoc (t : string) (c : ascii) :
  substring 0 (String.length t) ((t ++ String c "")%string) = t.
Proof. induction t as [|a t IH]; simpl; congruence. Qed.

Lemma snoc_inj (t u : string) (c d : ascii) :
  (t ++ String c "")%string = (u ++ String d "")%string -> t = u /\ c = d.
Proof.
  revert u; induction t as [|a t IH]; intros [|b u] H; simpl in H.
  - now inversion H.
  - inversion H as [[Ha Hu]]. destruct u; discriminate.
  - inversion H as [[Ha Ht]]. destruct t; discriminate.
  - inversion H as [[Ha Ht]]. destruct (IH _ Ht) as [-> ->]. now split.
Qed.

Lemma ends_with_newline_snoc (t : string) (c : ascii) :
  ends_with_newline ((t ++ String c "")%string) = Ascii.eqb c newline.
Proof.
  unfold ends_with_newline, char_at, len.
  rewrite length_snoc.
  replace (Z.of_nat (S (String.length t)) - 1) with (Z.of_nat (String.length t))
    by lia.
  rewrite Nat2Z.id, get_snoc.
  destruct (Z.ltb_spec 0 (Z.of_nat (S (String.length t)))); [|lia].
  destruct (Z.ltb_spec (Z.of_nat (String.length t)) 0); [lia|reflexivity].
Qed.

Lemma str_to_snoc (t : string) (c : ascii) :
  str_to ((t ++ String c "")%string) (len ((t ++ String c "")%string) - 1) = t.
Proof.
  unfold str_to, len. rewrite length_snoc.
  replace (Z.to_nat (Z.of_nat (S (String.length t)) - 1)) with (String.length t)
    by lia.
  apply substring_snoc.
Qed.

(** One trailing newline is removed when there is one, nothing else. *)
Lemma stored_line_spec (s : string) :
  s = (stored_line s ++ String newline "")%string \/
  (s = stored_line s /\ forall t, s <> (t ++ String newline "")%string).
Proof.
  unfold stored_line.
  destruct (string_snoc_cases s) as [->|(t & c & ->)].
  - right. split; [reflexivity|]. intros [|a t]; discriminate.
  - rewrite ends_with_newline_snoc, str_to_snoc.
    destruct (Ascii.eqb_spec c newline) as [->|Hc].
    + now left.
    + right. split; [reflexivity|].
      intros u Hu. apply snoc_inj in Hu. tauto.
Qed.

Lemma Write_lines (m : memoryLogger) (p : list byte) :
  lines (fst (Write m p)) =
  let ls := lines m ++ [stored_line (string_of_list_byte p)] in
  if Z.of_nat (List.length ls) >? maxLines m then skipn 1 ls else ls.
Proof. reflexivity. Qed.

(** C7. [ReadLine(offset)] fails with [io.EOF] exactly when [offset] is
    negative or at least the line count, leaving the buffer as it was (so
    every offset fails on an empty buffer); otherwise it returns the lines
    from [offset] to the end, in order and at least one of them, the
    buffer keeps exactly the [offset] lines before them, and the same read
    repeated fails with [io.EOF]. *)
Theorem ReadLine_spec (m : memoryLogger) (offset : Z) :
  (snd (snd (ReadLine m offset)) = Some EOF <->
   offset < 0 \/ offset >= Lines m) /\
  (offset < 0 \/ offset >= Lines m ->
   ReadLine m offset = (m, ([], Some EOF))) /\
  (0 <= offset < Lines m ->
   exists m' ss,
     ReadLine m offset = (m', (ss, None)) /\
     ss <> [] /\
     lines m = lines m' ++ ss /\
     Lines m' = offset /\
     maxLines m' = maxLines m /\
     ReadLine m' offset = (m', ([], Some EOF))).
Proof.
  assert (Hfail : offset < 0 \/ offset >= Lines m ->
                  ReadLine m offset = (m, ([], Some EOF))).
  { intros H. unfold ReadLine, Lines in *.
    destruct (Z.ltb_spec offset 0); simpl; [reflexivity|].
    destruct (Z.geb_spec offset (Z.of_nat (List.length (lines m))));
      [reflexivity|lia]. }
  assert (Hok : 0 <= offset < Lines m ->
                ReadLine m offset =
                ({| lines := firstn (Z.to_nat offset) (lines m);
                    maxLines := maxLines m |},
                 (skipn (Z.to_nat offset) (lines m), None))).
  { intros H. unfold ReadLine, Lines in *.
    destruct (Z.ltb_spec offset 0); [lia|]. simpl.
    destruct (Z.geb_spec offset (Z.of_nat (List.length (lines m))));
      [lia|reflexivity]. }
  split; [|split].
  - split.
    + intros H.
      destruct (Z_lt_ge_dec offset 0) as [?|H0]; [now left|].
      destruct (Z_lt_ge_dec offset (Lines m)) as [H1|?]; [|now right].
      rewrite Hok in H by lia. discriminate.
    + intros H. now rewrite Hfail.
  - exact Hfail.
  - intros H. rewrite (Hok H).
    eexists; eexists; split; [reflexivity|]. simpl.
    assert (Hlen : (Z.to_nat offset < List.length (lines m))%nat)
      by (unfold Lines in H; lia).
    repeat split.
    + intros E. apply (f_equal (@List.length string)) in E.
      rewrite length_skipn in E. simpl in E. lia.
    + symmetry. apply firstn_skipn.
    + unfold Lines. simpl. rewrite firstn_length_le by lia. lia.
    + unfold ReadLine. simpl. rewrite firstn_length_le by lia.
      destruct (Z.ltb_spec offset 0); [lia|]. simpl.
      destruct (Z.geb_spec offset (Z.of_nat (Z.to_nat offset)));
        [reflexivity|lia].
Qed.

(** C8. [Write] never fails and returns the length of its input; it
    appends one line, the input without its trailing newline when it has
    one and the input itself otherwise; and when the append takes the
    count over [maxLines], the oldest line, and only it, is dropped. *)
Theorem Write_spec (m : memoryLogger) (p : list byte) :
  exists line,
    (string_of_list_byte p = (line ++ String newline "")%string \/
     (string_of_list_byte p = line /\
      forall t, string_of_list_byte p <> (t ++ String newline "")%string)) /\
    snd (Write m p) = (Z.of_nat (List.length p), None) /\
    maxLines (fst (Write m p)) = maxLines m /\
    (Lines m + 1 <= maxLines m ->
     lines (fst (Write m p)) = lines m ++ [line]) /\
    (Lines m + 1 > maxLines m ->
     exists oldest,
       lines m ++ [line] = oldest :: lines (fst (Write m p))).
Proof.
  exists (stored_line (string_of_list_byte p)).
  split; [apply stored_line_spec|].
  split; [reflexivity|]. split; [reflexivity|].
  rewrite Write_lines. cbv zeta. unfold Lines.
  rewrite length_app. simpl List.length.
  split; intros H.
  - destruct (Z.gtb_spec (Z.of_nat (List.length (lines m) + 1)) (maxLines m));
      [lia|reflexivity].
  - destruct (Z.gtb_spec (Z.of_nat (List.length (lines m) + 1)) (maxLines m));
      [|lia].
    destruct (lines m) as [|l0 ls]; simpl; eauto.
Qed.

Lemma within_cap_Write (m : memoryLogger) (p : list byte) :
  within_cap m -> within_cap (fst (Write m p)).
Proof.
  intros [Hmax Hlen]. split; [exact Hmax|].
  unfold Lines in *. rewrite Write_lines. cbv zeta.
  rewrite Hmax.
  destruct (Z.gtb_spec
              (Z.of_nat (List.length
                 (lines m ++ [stored_line (string_of_list_byte p)]))) 1024)
    as [Hgt|Hle].
  - rewrite length_skipn, length_app. simpl. lia.
  - exact Hle.
Qed.

Lemma within_cap_ReadLine (m : memoryLogger) (offset : Z) :
  within_cap m -> within_cap (fst (ReadLine m offset)).
Proof.
  intros [Hmax Hlen]. unfold ReadLine.
  destruct ((offset <? 0) || (offset >=? Z.of_nat (List.length (lines m))));
    [now split|].
  destruct (offset >=? Z.of_nat (List.length (lines m))); [now split|].
  split; [exact Hmax|]. unfold Lines in *. simpl.
  pose proof (firstn_le_length (Z.to_nat offset) (lines m)) as Hf.
  rewrite length_firstn. lia.
Qed.

Lemma within_cap_apply_call (m : memoryLogger) (c : call) :
  within_cap m -> within_cap (apply_call m c).
Proof.
  intros H. destruct c as [p|offset| |]; simpl.
  - now apply within_cap_Write.
  - now apply within_cap_ReadLine.
  - exact H.
  - exact H.
Qed.

Lemma within_cap_run_calls (cs : list call) (m : memoryLogger) :
  within_cap m -> within_cap (run_calls cs m).
Proof.
  revert m. induction cs as [|c cs IH]; intros m H; simpl; [exact H|].
  apply IH, within_cap_apply_call, H.
Qed.

(** C9. The line count of the buffer is at most the cap of 1024: for the
    fresh buffer, after each of [Write], [ReadLine], [Lines] and [Close]
    when it held before, and so after any sequence of calls on a fresh
    buffer. *)
Theorem within_cap_invariant :
  within_cap NewMemoryLogger /\
  (forall m c, within_cap m -> within_cap (apply_call m c)) /\
  (forall cs, Lines (run_calls cs NewMemoryLogger) <= 1024).
Proof.
  assert (H0 : within_cap NewMemoryLogger) by (split; [reflexivity|cbv; discriminate]).
  split; [exact H0|]. split; [exact within_cap_apply_call|].
  intros cs. apply (within_cap_run_calls cs), H0.
Qed.

(** *** The theorems at concrete buffers *)

Lemma ReadLine_spec_witness :
  0 <= 1 < Lines three_lines /\
  exists m' ss,
    ReadLine three_lines 1 = (m', (ss, None)) /\
    ss <> [] /\
    lines three_lines = lines m' ++ ss /\
    Lines m' = 1 /\
    maxLines m' = maxLines three_lines /\
    ReadLine m' 1 = (m', ([], Some EOF)).
Proof.
  assert (H : 0 <= 1 < Lines three_lines) by (split; [discriminate|reflexivity]).
  split; [exact H|].
  exact (proj2 (proj2 (ReadLine_spec three_lines 1)) H).
Defined.

Lemma Write_spec_witness :
  Lines NewMemoryLogger + 1 <= maxLines NewMemoryLogger /\
  exists line,
    lines (fst (Write NewMemoryLogger hello)) = lines NewMemoryLogger ++ [line].
Proof.
  assert (H : Lines NewMemoryLogger + 1 <= maxLines NewMemoryLogger)
    by discriminate.
  split; [exact H|].
  destruct (Write_spec NewMemoryLogger hello) as (line & _ & _ & _ & Hl & _).
  exists line. exact (Hl H).
Defined.

Lemma within_cap_invariant_witness :
  within_cap NewMemoryLogger /\
  within_cap (apply_call NewMemoryLogger (CallWrite hello)).
Proof.
  split; [exact (proj1 within_cap_invariant)|].
  exact (proj1 (proj2 within_cap_invariant) NewMemoryLogger (CallWrite hello)
           (proj1 within_cap_invariant)).
Defined.

(** The steps of [TestMemoryLogger]. *)
Example write_hello :
  Write NewMemoryLogger hello =
  ({| lines := ["hello world"]; maxLines := 1024 |}, (12, None)).
Proof. reflexivity. Qed.

Example read_hello :
  ReadLine (fst (Write NewMemoryLogger hello)) 0 =
  (NewMemoryLogger, (["hello world"], None)).
Proof. reflexivity. Qed.

Example read_empty :
  snd (ReadLine NewMemoryLogger 0) = ([], Some EOF) /\
  snd (ReadLine NewMemoryLogger (-1)) = ([], Some EOF).
Proof. split; reflexivity. Qed.

End LoggerProps.

(** ** The supervisor *)

Module SupervisorProps.
Import Logger Supervisor.

(** *** The daemon among concurrent callers *)

Lemma rely_refl w : rely w w.
Proof. exact (fun H => H). Qed.

Lemma rely_trans w1 w2 w3 : rely w1 w2 -> rely w2 w3 -> rely w1 w3.
Proof. unfold rely. auto. Qed.

Lemma safe_stable {R} (Q : list event -> R -> world -> Prop) p h w w' :
  safe Q p h w -> rely w w' -> safe Q p h w'.
Proof.
  destruct p as [r|m|X e k]; cbn; intros H Hr; auto.
  - intros w1 H1. apply H. eapply rely_trans; eauto.
  - intros w1 a H1. apply H. eapply rely_trans; eauto.
Qed.

Lemma safe_bind {A B} (Q : list event -> B -> world -> Prop)
  (p : prog A) (f : A -> prog B) h w :
  safe (fun h' r w' => safe Q (f r) h' w') p h w -> safe Q (bind p f) h w.
Proof.
  revert h w. induction p as [r|m|X e k IH]; cbn; intros h w H.
  - apply H, rely_refl.
  - exact I.
  - intros w1 a Hr. specialize (H w1 a Hr).
    destruct (handle e w1 a); auto.
Qed.

Lemma safe_weaken {R} (Q Q' : list event -> R -> world -> Prop) p h w :
  (forall h r w, Q h r w -> Q' h r w) -> safe Q p h w -> safe Q' p h w.
Proof.
  intros HQ. revert h w. induction p as [r|m|X e k IH]; cbn; intros h w H.
  - intros w1 Hr. apply HQ, H, Hr.
  - exact I.
  - intros w1 a Hr. specialize (H w1 a Hr).
    destruct (handle e w1 a); auto.
Qed.

Lemma group_signalled_intro (g : Z) (h : list event) :
  existsb (has_pgid g) h = true ->
  existsb (signalled_to (- g)) h = true ->
  group_signalled h = true.
Proof.
  intros H1 H2. unfold group_signalled. apply existsb_exists.
  apply existsb_exists in H1. destruct H1 as (ev & Hin & Hev).
  exists ev. split; [exact Hin|]. unfold has_pgid in Hev.
  destruct (pgid_of ev) as [g'|]; [|discriminate].
  apply Z.eqb_eq in Hev. now subst.
Qed.

Lemma group_signalled_cons ev h :
  group_signalled h = true -> group_signalled (ev :: h) = true.
Proof.
  unfold group_signalled. intros H. apply existsb_exists in H.
  destruct H as (x & Hin & Hx). apply existsb_exists.
  exists x. split; [now right|].
  destruct (pgid_of x); [|discriminate]. cbn. rewrite Hx. apply orb_true_r.
Qed.

(** After the graceful signal: every case of the select ends with the
    group signalled and [d.done] closed. *)
Lemma Stop_select_safe ctx g h w :
  existsb (has_pgid g) h = true ->
  existsb (signalled_to (- g)) h = true ->
  safe (fun h' _ w' => group_signalled h' = true /\ done (dmn w') = true)
       (Stop_select ctx g) h w.
Proof.
  intros Hg Hk. unfold Stop_select. cbn -[group_signalled].
  intros w1 i Hr1.
  assert (Hsig : forall l, group_signalled (l ++ h) = true).
  { intros l. apply (group_signalled_intro g); rewrite existsb_app;
      [rewrite Hg|rewrite Hk]; apply orb_true_r. }
  destruct i as [|[|[|i]]]; cbn -[group_signalled].
  - destruct (ctx_done (fired w1) ctx); [|exact I]. cbn -[group_signalled].
    intros w2 a2 Hr2. intros w3 a3 Hr3. cbn -[group_signalled].
    destruct (done (dmn w3)) eqn:Hd3; [|exact I]. cbn -[group_signalled].
    intros w4 a4 Hr4 w5 a5 Hr5 w6 a6 Hr6 w7 Hr7.
    split.
    + apply (Hsig [_; _; _; _; _; _]).
    + auto.
  - destruct (done (dmn w1)) eqn:Hd1; [|exact I]. cbn -[group_signalled].
    intros w2 a2 Hr2.
    destruct (exitError (dmn w2)); cbn -[group_signalled]; intros w3 Hr3;
      (split; [apply (Hsig [_; _])|auto]).
  - intros w2 a2 Hr2 w3 a3 Hr3. cbn -[group_signalled].
    destruct (done (dmn w3)) eqn:Hd3; [|exact I]. cbn -[group_signalled].
    intros w4 Hr4.
    split; [apply (Hsig [_; _; _])|auto].
  - destruct i; exact I.
Qed.

Lemma Stop_locked_safe ctx h w :
  existsb is_select h = false ->
  safe Stop_post (Stop_locked ctx) h w.
Proof.
  intros Hh. unfold Stop_locked, pgid. cbn.
  intros w1 a1 Hr1.
  destruct (no_process (dmn w1)) eqn:Hnp; cbn.
  { intros w2 Hr2 Hs. cbn in Hs. congruence. }
  intros w2 a2 Hr2.
  destruct (cmd (dmn w2)) as [[cc pa ar so se di sp [pid|]]|]; cbn.
  2,3: intros w3 Hr3 Hs; cbn in Hs; congruence.
  intros w3 [g [err|]] Hr3; cbn.
  { intros w4 Hr4 Hs. cbn in Hs. congruence. }
  intros w4 a4 Hr4.
  assert (Hsel : safe Stop_post (Stop_select ctx g)
                   (Ev (Kill (- g) SIGINT) a4
                    :: Ev (Getpgid pid) (g, None)
                    :: Ev Load (dmn w2) :: Ev Load (dmn w1) :: h) w4).
  { eapply safe_weaken; [|apply (Stop_select_safe ctx g)].
    - intros h' r w' H _. exact H.
    - cbn. unfold has_pgid at 1. cbn. now rewrite Z.eqb_refl.
    - cbn. now rewrite Z.eqb_refl. }
  destruct a4 as [err|]; [|exact Hsel].
  destruct (negb (errors_Is err ErrProcessDone)); [|exact Hsel].
  cbn. intros w5 Hr5 Hs. cbn in Hs. congruence.
Qed.

Lemma Stop_safe (ctx : Context) h w :
  existsb is_select h = false -> safe Stop_post (Stop ctx) h w.
Proof.
  intros Hh.
  unfold Stop. apply safe_bind. unfold perform. cbn [safe handle].
  intros w1 a1 Hr1.
  destruct (mu (dmn w1)); [exact I|]. cbn [safe]. intros w2 Hr2.
  apply safe_bind.
  eapply safe_weaken; [|apply Stop_locked_safe; exact Hh].
  intros h1 r w' H. apply safe_bind. cbn [safe handle]. intros w3 a3 Hr3.
  destruct (mu (dmn w3)); [|exact I].
  cbn [safe]. intros w4 Hr4 w5 Hr5 Hs. cbn in Hs. destruct (H Hs) as [H1 H2].
  split; [now apply group_signalled_cons|].
  apply Hr5, Hr4. cbn. apply Hr3, H2.
Qed.

(** The goroutine that watches the caller's context: whatever it does
    before, its call of [Stop] meets the same postcondition. *)
Lemma watcher_react_safe ctx status err h w :
  existsb is_select h = false ->
  safe Stop_post (watcher_react ctx status err) h w.
Proof.
  intros Hh.
  assert (Hstop : forall h0 w0, existsb is_select h0 = false ->
            safe Stop_post
              (err <- Stop ctx ;;
               match err with
               | Some _ => Slog "ERROR" "failed to stop daemon"
               | None => Slog "INFO" "daemon stopped successfully"
               end)%prog h0 w0).
  { intros h0 w0 H0. apply safe_bind.
    eapply safe_weaken; [|apply Stop_safe; exact H0].
    intros h1 r w1 H.
    destruct r; cbn; intros w2 a2 Hr2 w3 Hr3 Hs; cbn in Hs;
      destruct (H Hs) as [H1 H2];
      (split; [now apply group_signalled_cons|apply Hr3; cbn; apply Hr2, H2]). }
  unfold watcher_react. destruct err as [e|].
  - cbn [bind perform safe handle]. intros w1 a1 Hr1.
    apply Hstop. cbn. exact Hh.
  - destruct (negb (String.eqb status DaemonStatusRunning)).
    + cbn. intros w1 a1 Hr1 w2 Hr2 Hs. cbn in Hs. congruence.
    + apply Hstop, Hh.
Qed.

Lemma Status_quiet h w :
  existsb is_select h = false ->
  safe (fun h' _ _ => existsb is_select h' = false) Status h w.
Proof.
  intros Hh. unfold Status, pgid.
  repeat (cbn; intros;
          try match goal with
              | |- context [match ?x with _ => _ end] => destruct x
              end);
  try exact I; auto.
Qed.

Lemma watcher_safe ctx w : safe Stop_post (watcher ctx) [] w.
Proof.
  unfold watcher. cbn [bind perform safe handle]. intros w1 i Hr1.
  destruct i as [|[|i]]; cbn [nth_error ready].
  - destruct (ctx_done (fired w1) ctx); [|exact I].
    apply safe_bind.
    eapply safe_weaken; [|apply Status_quiet; reflexivity].
    intros h [status err] w2 Hq. now apply watcher_react_safe.
  - destruct (done (dmn w1)); [|exact I].
    cbn. intros w2 a2 Hr2 w3 Hr3 Hs. cbn in Hs. congruence.
  - destruct i; exact I.
Qed.

(** ** Syntactic facts on the methods *)

Ltac crush_prog :=
  repeat (cbn; intros;
          try match goal with
              | |- context [match ?x with _ => _ end] => destruct x
              end);
  try exact I; try reflexivity; auto.

Lemma may_spawn_Status : may_spawn 0 Status.
Proof. unfold Status, pgid. crush_prog. Qed.

Lemma may_spawn_Stop ctx : may_spawn 0 (Stop ctx).
Proof. unfold Stop, Stop_locked, Stop_select, pgid. crush_prog. Qed.

Lemma may_spawn_watcher ctx : may_spawn 0 (watcher ctx).
Proof.
  unfold watcher, watcher_react, Status, Stop, Stop_locked, Stop_select, pgid.
  crush_prog.
Qed.

Lemma may_spawn_Start ctx : may_spawn 1 (Start ctx).
Proof. unfold Start, index, slice_from. crush_prog. Qed.

Lemma closer_waiter ctx : closer (waiter ctx).
Proof.
  unfold waiter, waiter_body. crush_prog;
    repeat match goal with x : unit |- _ => destruct x end; reflexivity.
Qed.

(** ** One operation of a thread *)

Ltac break_match :=
  repeat match goal with
         | H : context [match ?c with _ => _ end] |- _ =>
             lazymatch c with
             | context [match _ with _ => _ end] => fail
             | _ => destruct c eqn:?
             end
         end.


Lemma handle_rely {X} (e : eff X) w a x w' :
  handle e w a = Continue x w' -> rely w w'.
Proof.
  unfold rely.
  destruct e; cbn; intros H Hd;
    break_match;
    try discriminate; inversion H; subst; cbn; congruence.
Qed.

Lemma advance_rely {R} a w (t : thread R) w' t' g :
  advance a w t = Some (w', t', g) -> rely w w'.
Proof.
  unfold advance. destruct (code t) as [r|m|X e k]; try discriminate.
  destruct (handle e w (a X e)) eqn:Hh; intros H; inversion H; subst.
  - eapply handle_rely; eauto.
  - apply rely_refl.
Qed.

Lemma advance_safe {R} (Q : list event -> R -> world -> Prop) a w
  (t : thread R) w' t' g :
  advance a w t = Some (w', t', g) ->
  safe Q (code t) (hist t) w -> safe Q (code t') (hist t') w'.
Proof.
  unfold advance. destruct (code t) as [r|m|X e k]; try discriminate.
  cbn. intros H Hs. specialize (Hs w (a X e) (rely_refl w)).
  destruct (handle e w (a X e)); inversion H; subst; cbn; auto.
Qed.

Lemma advance_may_spawn {R} a w (t : thread R) w' t' g n :
  advance a w t = Some (w', t', g) ->
  may_spawn n (code t) ->
  done (dmn w') = done (dmn w) /\
  if spawns_waiter g
  then exists m, n = S m /\ may_spawn m (code t')
  else may_spawn n (code t').
Proof.
  unfold advance. destruct (code t) as [r|m|X e k]; try discriminate.
  destruct e as [| | | | | | | | | | | | | | |[c|c]]; cbn; intros H Hm;
    break_match;
    inversion H; subst; cbn; try (split; [reflexivity|]); auto;
    try contradiction.
  all: eauto.
Qed.

Lemma advance_closer a w (t : thread unit) w' t' g :
  advance a w t = Some (w', t', g) ->
  closer (code t) -> done (dmn w) = false ->
  g = None /\
  if done (dmn w') then code t' = Ret tt else closer (code t').
Proof.
  unfold advance. destruct (code t) as [r|m|X e k]; try discriminate.
  destruct e; cbn; intros H Hc Hd;
    break_match;
    inversion H; subst; cbn; try rewrite Hd; try (split; [reflexivity|]);
    auto; try contradiction; try congruence.
Qed.

(** ** Lists of threads *)

Lemma replace_nth_split {A} (l : list A) i x0 x :
  nth_error l i = Some x0 ->
  exists l1 l2, l = l1 ++ x0 :: l2 /\ replace_nth i x l = l1 ++ x :: l2.
Proof.
  intros H. destruct (nth_error_split l i H) as (l1 & l2 & -> & Hlen).
  exists l1, l2. split; [reflexivity|]. unfold replace_nth. subst i.
  rewrite firstn_app, firstn_all, Nat.sub_diag, app_nil_r.
  replace (S (List.length l1)) with (List.length l1 + 1)%nat by lia.
  rewrite skipn_app, skipn_all2 by lia.
  replace (List.length l1 + 1 - List.length l1)%nat with 1%nat by lia.
  reflexivity.
Qed.

Lemma waiters_app gs1 gs2 : waiters (gs1 ++ gs2) = (waiters gs1 + waiters gs2)%nat.
Proof. unfold waiters. now rewrite filter_app, length_app. Qed.

Lemma waiters_cons g gs :
  waiters (g :: gs) = ((if is_waiter g then 1 else 0) + waiters gs)%nat.
Proof. unfold waiters. cbn. now destruct (is_waiter g). Qed.

Lemma waiters_none gs :
  waiters gs = 0%nat -> Forall (fun g => is_waiter g = false) gs.
Proof.
  induction gs as [|g gs IH]; [constructor|].
  rewrite waiters_cons. destruct (is_waiter g) eqn:Hg; [discriminate|].
  intros H. constructor; auto.
Qed.

Lemma waiters_some gs :
  (1 <= waiters gs)%nat -> exists g, In g gs /\ is_waiter g = true.
Proof.
  induction gs as [|g gs IH]; [cbn; lia|].
  rewrite waiters_cons. destruct (is_waiter g) eqn:Hg.
  - intros _. exists g. split; [now left|exact Hg].
  - intros H. destruct (IH H) as (g' & Hin & Hw). exists g'. split; [now right|exact Hw].
Qed.

Lemma goroutine_ok_other w w' g :
  is_waiter g = false -> rely w w' -> goroutine_ok w g -> goroutine_ok w' g.
Proof.
  unfold goroutine_ok. intros -> Hr [H1 H2]. split; [exact H1|].
  eapply safe_stable; eauto.
Qed.

Lemma goroutine_ok_same_done w w' g :
  done (dmn w') = done (dmn w) -> goroutine_ok w g -> goroutine_ok w' g.
Proof.
  unfold goroutine_ok. intros E. rewrite E.
  destruct (is_waiter g); [auto|]. intros [H1 H2]. split; [exact H1|].
  eapply safe_stable; [exact H2|]. unfold rely. now rewrite E.
Qed.

Lemma start_goroutine_ok w g gs :
  spawns_waiter g = false ->
  Forall (goroutine_ok w) gs ->
  Forall (goroutine_ok w) (start_goroutine g gs) /\
  waiters (start_goroutine g gs) = waiters gs.
Proof.
  destruct g as [[c|c]|]; unfold start_goroutine, spawns_waiter;
    intros Hs H; try discriminate; auto.
  split.
  - apply Forall_app. split; [exact H|]. constructor; [|constructor].
    unfold goroutine_ok. cbn. split; [apply may_spawn_watcher|apply watcher_safe].
  - rewrite waiters_app. cbn. lia.
Qed.

(** ** The invariant is kept *)

Lemma play_rely m p p' : play m p = Some p' -> rely (shared p) (shared p').
Proof.
  destruct m; cbn; intros H.
  - destruct (advance a (shared p) (starter p)) as [[[w t] g]|] eqn:Ha;
      inversion H; subst; cbn. eapply advance_rely; eauto.
  - destruct (nth_error (stoppers p) i) as [t0|]; [|discriminate].
    destruct (advance a (shared p) t0) as [[[w t] g]|] eqn:Ha;
      inversion H; subst; cbn. eapply advance_rely; eauto.
  - destruct (nth_error (pollers p) i) as [t0|]; [|discriminate].
    destruct (advance a (shared p) t0) as [[[w t] g]|] eqn:Ha;
      inversion H; subst; cbn. eapply advance_rely; eauto.
  - destruct (nth_error (goroutines p) i) as [[name t0]|]; [|discriminate].
    destruct (advance a (shared p) t0) as [[[w t] g]|] eqn:Ha;
      inversion H; subst; cbn. eapply advance_rely; eauto.
  - inversion H; subst; cbn. exact (fun H => H).
  - destruct (no_process (dmn (shared p))); inversion H; subst; cbn.
    exact (fun H => H).
Qed.

Lemma stoppers_stable w w' ts :
  rely w w' ->
  Forall (fun t : thread (option error) =>
            may_spawn 0 (code t) /\ safe Stop_post (code t) (hist t) w) ts ->
  Forall (fun t : thread (option error) =>
            may_spawn 0 (code t) /\ safe Stop_post (code t) (hist t) w') ts.
Proof.
  intros Hr. apply Forall_impl. intros t [H1 H2]. split; [exact H1|].
  eapply safe_stable; eauto.
Qed.

Lemma goroutines_stable w w' gs :
  done (dmn w') = done (dmn w) ->
  Forall (goroutine_ok w) gs -> Forall (goroutine_ok w') gs.
Proof.
  intros Hd. apply Forall_impl. intros g. now apply goroutine_ok_same_done.
Qed.

(** A thread that never starts the waiter performs one operation. *)
Lemma quiet_step {R} a (t0 : thread R) p w t g :
  pool_inv p ->
  advance a (shared p) t0 = Some (w, t, g) ->
  may_spawn 0 (code t0) ->
  may_spawn 0 (code t) /\
  done (dmn w) = done (dmn (shared p)) /\
  rely (shared p) w /\
  Forall (goroutine_ok w) (start_goroutine g (goroutines p)) /\
  waiters (start_goroutine g (goroutines p)) = waiters (goroutines p).
Proof.
  intros Hinv Ha Hm.
  destruct (advance_may_spawn _ _ _ _ _ _ _ Ha Hm) as [Hd Hg].
  destruct (spawns_waiter g) eqn:Hs.
  { destruct Hg as (m & Hm0 & _). discriminate. }
  split; [exact Hg|]. split; [exact Hd|].
  split; [eapply advance_rely; eauto|].
  apply start_goroutine_ok; [exact Hs|].
  eapply goroutines_stable; [exact Hd|]. apply Hinv.
Qed.

Lemma play_inv m p p' : play m p = Some p' -> pool_inv p -> pool_inv p'.
Proof.
  intros H Hinv. pose proof (play_rely _ _ _ H) as Hrely.
  destruct Hinv as [Hst Hdn Hss Hps Hgs].
  pose proof (Build_pool_inv p Hst Hdn Hss Hps Hgs) as Hinv.
  destruct m; cbn in H.
  - (* the call of Start *)
    destruct (advance a (shared p) (starter p)) as [[[w t] g]|] eqn:Ha;
      inversion H; subst; clear H. cbn in Hrely.
    destruct Hst as (n & Hn & Hle).
    destruct (advance_may_spawn _ _ _ _ _ _ _ Ha Hn) as [Hd Hg].
    destruct (spawns_waiter g) eqn:Hs.
    + destruct Hg as (m & -> & Hm).
      destruct g as [[c|c]|]; try discriminate.
      assert (Hw0 : waiters (goroutines p) = 0%nat) by lia.
      assert (Hopen : done (dmn (shared p)) = false).
      { destruct (done (dmn (shared p))) eqn:E; [|reflexivity].
        specialize (Hdn eq_refl). lia. }
      constructor; cbn [shared starter stoppers pollers goroutines];
        unfold start_goroutine.
      * exists m. split; [exact Hm|]. rewrite waiters_app. cbn. lia.
      * intros _. rewrite waiters_app. cbn. lia.
      * eapply stoppers_stable; eauto.
      * exact Hps.
      * apply Forall_app. split.
        -- eapply goroutines_stable; eauto.
        -- constructor; [|constructor]. unfold goroutine_ok.
           cbn [is_waiter fst snd fresh code body].
           rewrite Hd, Hopen. apply closer_waiter.
    + destruct (start_goroutine_ok w g (goroutines p) Hs) as [Hf Hc].
      { eapply goroutines_stable; eauto. }
      constructor; cbn [shared starter stoppers pollers goroutines].
      * exists n. split; [exact Hg|]. rewrite Hc. exact Hle.
      * rewrite Hd, Hc. exact Hdn.
      * eapply stoppers_stable; eauto.
      * exact Hps.
      * exact Hf.
  - (* a call of Stop *)
    destruct (nth_error (stoppers p) i) as [t0|] eqn:Hi; [|discriminate].
    destruct (advance a (shared p) t0) as [[[w t] g]|] eqn:Ha;
      inversion H; subst; clear H. cbn in Hrely.
    destruct (replace_nth_split _ _ _ t Hi) as (l1 & l2 & El & Er).
    rewrite El in Hss. apply Forall_app in Hss. destruct Hss as [Hl1 Hl2].
    apply Forall_cons_iff in Hl2. destruct Hl2 as [[Hq Hsafe] Hl2].
    destruct (quiet_step _ _ _ _ _ _ Hinv Ha Hq) as (Hq' & Hd & _ & Hf & Hc).
    constructor; cbn [shared starter stoppers pollers goroutines].
    + rewrite Hc. exact Hst.
    + rewrite Hd, Hc. exact Hdn.
    + rewrite Er. apply Forall_app. split.
      * eapply stoppers_stable; eauto.
      * constructor.
        -- split; [exact Hq'|]. eapply advance_safe; eauto.
        -- eapply stoppers_stable; eauto.
    + exact Hps.
    + exact Hf.
  - (* a call of Status *)
    destruct (nth_error (pollers p) i) as [t0|] eqn:Hi; [|discriminate].
    destruct (advance a (shared p) t0) as [[[w t] g]|] eqn:Ha;
      inversion H; subst; clear H. cbn in Hrely.
    destruct (replace_nth_split _ _ _ t Hi) as (l1 & l2 & El & Er).
    rewrite El in Hps. apply Forall_app in Hps. destruct Hps as [Hl1 Hl2].
    apply Forall_cons_iff in Hl2. destruct Hl2 as [Hq Hl2].
    destruct (quiet_step _ _ _ _ _ _ Hinv Ha Hq) as (Hq' & Hd & _ & Hf & Hc).
    constructor; cbn [shared starter stoppers pollers goroutines].
    + rewrite Hc. exact Hst.
    + rewrite Hd, Hc. exact Hdn.
    + eapply stoppers_stable; eauto.
    + rewrite Er. apply Forall_app. split; [exact Hl1|]. now constructor.
    + exact Hf.
  - (* a goroutine *)
    destruct (nth_error (goroutines p) i) as [[name t0]|] eqn:Hi;
      [|discriminate].
    destruct (advance a (shared p) t0) as [[[w t] g]|] eqn:Ha;
      inversion H; subst; clear H. cbn in Hrely.
    destruct (replace_nth_split _ _ _ (name, t) Hi) as (l1 & l2 & El & Er).
    rewrite Er. clear Er.
    assert (Hgs' := Hgs). rewrite El in Hgs'.
    apply Forall_app in Hgs'. destruct Hgs' as [Hl1 Hl2].
    apply Forall_cons_iff in Hl2. destruct Hl2 as [Hok Hl2].
    assert (Hcount : waiters (l1 ++ (name, t) :: l2) = waiters (goroutines p)).
    { rewrite El, !waiters_app, !waiters_cons. reflexivity. }
    destruct (is_waiter (name, t0)) eqn:Hw.
    + (* the waiter *)
      unfold goroutine_ok in Hok. rewrite Hw in Hok. cbn in Hok.
      destruct (done (dmn (shared p))) eqn:Hopen.
      { unfold advance in Ha. rewrite Hok in Ha. discriminate. }
      destruct (advance_closer _ _ _ _ _ _ Ha Hok Hopen) as [-> Hafter].
      assert (Hothers : Forall (fun g => is_waiter g = false) (l1 ++ l2)).
      { apply waiters_none. destruct Hst as (n & _ & Hle).
        rewrite El, waiters_app, waiters_cons, Hw in Hle.
        rewrite waiters_app. lia. }
      apply Forall_app in Hothers. destruct Hothers as [Ho1 Ho2].
      assert (Hkeep : forall l, Forall (fun g => is_waiter g = false) l ->
                                Forall (goroutine_ok (shared p)) l ->
                                Forall (goroutine_ok w) l).
      { intros l Hn Hl. rewrite Forall_forall in *. intros x Hx.
        eapply goroutine_ok_other; [apply Hn, Hx|exact Hrely|apply Hl, Hx]. }
      constructor;
        cbn [shared starter stoppers pollers goroutines start_goroutine].
      * rewrite Hcount. exact Hst.
      * intros _. rewrite Hcount. destruct Hst as (n & _ & Hle).
        rewrite El, waiters_app, waiters_cons, Hw in *. lia.
      * eapply stoppers_stable; eauto.
      * exact Hps.
      * apply Forall_app. split; [now apply Hkeep|].
        constructor; [|now apply Hkeep].
        unfold goroutine_ok.
        replace (is_waiter (name, t)) with true by exact (eq_sym Hw).
        exact Hafter.
    + (* a watcher *)
      unfold goroutine_ok in Hok. rewrite Hw in Hok. cbn [snd] in Hok.
      destruct Hok as [Hok Hsafe].
      destruct (advance_may_spawn _ _ _ _ _ _ _ Ha Hok) as [Hd Hg].
      destruct (spawns_waiter g) eqn:Hs.
      { destruct Hg as (m & Hm0 & _). discriminate. }
      destruct (start_goroutine_ok w g (l1 ++ (name, t) :: l2) Hs) as [Hf Hc].
      { apply Forall_app. split; [eapply goroutines_stable; eauto|].
        constructor; [|eapply goroutines_stable; eauto].
        unfold goroutine_ok.
        replace (is_waiter (name, t)) with false by exact (eq_sym Hw).
        split; [exact Hg|]. eapply advance_safe; eauto. }
      constructor; cbn [shared starter stoppers pollers goroutines].
      * rewrite Hc, Hcount. exact Hst.
      * rewrite Hd, Hc, Hcount. exact Hdn.
      * eapply stoppers_stable; eauto.
      * exact Hps.
      * exact Hf.
  - (* a context is cancelled *)
    inversion H; subst; clear H. cbn in Hrely.
    constructor; cbn [shared starter stoppers pollers goroutines dmn fired on_dmn]; auto.
    + eapply stoppers_stable; eauto.
    + eapply goroutines_stable; [|exact Hgs]. reflexivity.
  - (* the child writes *)
    destruct (no_process (dmn (shared p))); inversion H; subst; clear H.
    cbn in Hrely. constructor; cbn [shared starter stoppers pollers goroutines dmn fired on_dmn]; auto.
    + eapply stoppers_stable; eauto.
    + eapply goroutines_stable; [|exact Hgs]. reflexivity.
Qed.

Lemma play_all_inv ms p p' :
  play_all ms p = Some p' -> pool_inv p -> pool_inv p'.
Proof.
  revert p. induction ms as [|m ms IH]; cbn; intros p H Hinv.
  - inversion H; subst. exact Hinv.
  - destruct (play m p) as [p1|] eqn:Hp; [|discriminate].
    eapply IH; eauto. eapply play_inv; eauto.
Qed.

Lemma initial_inv name commands workdir ctx stops polls :
  pool_inv (initial name commands workdir ctx stops polls).
Proof.
  constructor; cbn.
  - exists 1%nat. split; [apply may_spawn_Start|cbn; lia].
  - discriminate.
  - apply Forall_forall. intros t Ht. apply in_map_iff in Ht.
    destruct Ht as (c & <- & _). split; [apply may_spawn_Stop|now apply Stop_safe].
  - apply Forall_forall. intros t Ht. apply repeat_spec in Ht. subst.
    apply may_spawn_Status.
  - constructor.
Qed.



(** The call of [Stop] that the watcher makes: once the context of
    [Start] is cancelled, the watcher is a thread that has returned after
    the [select] of [Stop]. *)
Example watcher_stops :
  let p := after cancellation watched_pool in
  let h := hist (watcher_thread p) in
  reaches watched_pool p /\
  stop_returned p h /\
  existsb is_select h = true /\
  existsb (signalled_to (- 4242)) h = true.
Proof.
  intros p h.
  split; [exists cancellation; vm_compute; reflexivity|].
  split; [|split; vm_compute; reflexivity].
  right. exists (nth 0 (goroutines p)
                   (GoWatcher Background, fresh (Panic "no goroutine"))).
  split; [apply (nth_error_In _ 0); vm_compute; reflexivity|].
  split; [vm_compute; reflexivity|].
  split; [vm_compute; reflexivity|reflexivity].
Qed.

(** *** One method run alone *)

Lemma unlock_lock (w : world) :
  mu (dmn w) = false -> on_dmn (set_mu false) (on_dmn (set_mu true) w) = w.
Proof.
  destruct w as [[n c l wd cm m ee dn] f]. cbn. intros ->. reflexivity.
Qed.

(** C2. On a daemon without a process handle, one never started or one
    whose handle [Status] has cleared, [Stop] run with the mutex free
    returns [ErrDaemonNotRunning] (it neither panics nor waits) and leaves
    the daemon as it was. *)
Theorem Stop_not_running (o : env) (ctx : Context) (w : world) :
  no_process (dmn w) = true -> mu (dmn w) = false ->
  out (exec o (Stop ctx) w) = Returned (Some ErrDaemonNotRunning) /\
  final (exec o (Stop ctx) w) = w.
Proof.
  intros Hn Hm. unfold exec, Stop, Stop_locked. cbn.
  rewrite Hm. cbn.
  assert (no_process (set_mu true (dmn w)) = true) as -> by exact Hn.
  cbn. split; [reflexivity|]. now apply unlock_lock.
Qed.


(** *** Start *)




Lemma Start_v1_nonempty (o : env) (ctx : Context) (w : world) name arg :
  Commands (dmn w) = name :: arg ->
  let r := exec o (Start_v1 ctx) w in
  let c := command_of ctx name arg (Workdir (dmn w)) in
  match snd (o 6%nat _ CmdStart) with
  | Some err =>
      out r = Returned (Some (Errorf "failed to start daemon %s: %w"
                                [Name (dmn w)] err)) /\
      cmd (dmn (final r)) = Some c
  | None =>
      out r = Returned None /\
      cmd (dmn (final r)) =
        Some (set_Process (Some (fst (o 6%nat _ CmdStart))) c)
  end.
Proof.
  intros H. unfold exec, Start_v1. cbn. rewrite H. cbn.
  destruct (o 6%nat _ CmdStart) as [pid [err|]]; cbn; auto.
Qed.


(** *** The watcher *)












Lemma WithoutCancel_never_done fired ctx :
  ctx_done fired (WithoutCancel ctx) = false.
Proof. reflexivity. Qed.

(** Under the first declaration the child dies with the caller's
    context. *)
Lemma Start_v1_tied (o : env) (ctx : Context) (w : world) name arg :
  Commands (dmn w) = name :: arg ->
  exists c, cmd (dmn (final (exec o (Start_v1 ctx) w))) = Some c /\
            forall fired, exec_kills_child fired c = ctx_done fired ctx.
Proof.
  intros H. pose proof (Start_v1_nonempty o ctx w name arg H) as Hs.
  cbv zeta in Hs.
  destruct (snd (o 6%nat _ CmdStart)); destruct Hs as (_ & Hc);
    rewrite Hc; eexists; split; try reflexivity; intros; reflexivity.
Qed.


(** *** The waiter and the outcome of Stop *)

Lemma waiter_records (o : env) (ctx : Context) (w : world) :
  done (dmn w) = false ->
  let r := exec o (waiter ctx) w in
  out r = Returned tt /\ done (dmn (final r)) = true /\
  match o 0%nat _ CmdWait with
  | None => exitError (dmn (final r)) = exitError (dmn w)
  | Some err =>
      match errors_As_ExitError err with
      | Some ws =>
          if Signaled ws || (Exited ws && (ExitCode ws =? 0))
          then exitError (dmn (final r)) = exitError (dmn w)
          else exitError (dmn (final r)) =
               Some (Errorf "daemon %s exited with error: %w"
                       [Name (dmn w)] err)
      | None => exitError (dmn (final r)) = exitError (dmn w)
      end
  end.
Proof.
  intros Hd. unfold exec, waiter, waiter_body. cbn.
  destruct (o 0%nat _ CmdWait) as [err|]; cbn.
  - destruct (errors_As_ExitError err) as [ws|]; cbn.
    + destruct (Signaled ws); cbn; [rewrite Hd; cbn; auto|].
      destruct (Exited ws && (ExitCode ws =? 0)); cbn; rewrite Hd; cbn; auto.
    + rewrite Hd. cbn. auto.
  - rewrite Hd. cbn. auto.
Qed.

Lemma Stop_select_natural_exit (o : env) n ctx g w h :
  o n _ (Select [ChCtxDone ctx; ChDone; ChAfter 10]) = 1%nat ->
  done (dmn w) = true ->
  out (exec_from o n (Stop_select ctx g) w h) = Returned (exitError (dmn w)).
Proof.
  intros Hs Hd. unfold Stop_select. cbn. rewrite Hs. cbn. rewrite Hd. cbn.
  destruct (exitError (dmn w)); reflexivity.
Qed.

(** C3, at a wait that fails otherwise than by an exit error.  [Start]
    runs, [Stop] sends its signal and waits in its [select], [Wait] gives
    the error [wait: no child processes], the waiter runs to its end, and
    [Stop] takes the case of [d.done]: no outcome has been recorded and
    [Stop] returns nil. *)
Theorem wait_error_not_recorded :
  let p := after (natural_exit (Some wait_error)) catproc_pool in
  play_all (natural_exit (Some wait_error)) catproc_pool = Some p /\
  (exists t, nth_error (goroutines p) 1 = Some (GoWaiter Background, t) /\
             code t = Ret tt /\
             In (Ev CmdWait (Some wait_error)) (hist t)) /\
  exitError (dmn (shared p)) = None /\
  code (first_stopper p) = Ret None /\
  existsb is_select (hist (first_stopper p)) = true.
Proof.
  vm_compute. split; [reflexivity|].
  split; [eexists; split; [reflexivity|split; [reflexivity|]]|].
  - right. right. left. reflexivity.
  - repeat split; reflexivity.
Qed.

Lemma errors_Is_Errno_ErrProcessDone (n : Z) :
  errors_Is (Errno n) ErrProcessDone = false.
Proof. reflexivity. Qed.

Lemma Stop_sigint_errno (o : env) ctx w c pid g n :
  cmd (dmn w) = Some c -> Process c = Some pid -> mu (dmn w) = false ->
  o 3%nat _ (Getpgid pid) = (g, None) ->
  o 4%nat _ (Kill (- g) SIGINT) = Some (Errno n) ->
  out (exec o (Stop ctx) w) =
  Returned (Some (Errorf "sigterm: %w" [] (Errno n))).
Proof.
  intros Hc Hp Hm Hg Hk.
  destruct c as [cc pa ar so se di sp pr]. cbn in Hp. subst pr.
  unfold exec, Stop, Stop_locked, pgid, no_process. cbn.
  rewrite Hm. cbn. rewrite Hc. cbn. rewrite Hc. cbn.
  rewrite Hg. cbn. rewrite Hk. reflexivity.
Qed.

(** C4, at a process group that is gone when the graceful signal is
    sent: [syscall.Kill] gives [ESRCH], which is not [os.ErrProcessDone],
    and [Stop] returns the error wrapped without reaching its [select]. *)
Theorem Stop_group_gone :
  let o := always (with_kill (Some (Errno ESRCH)) calm) in
  let r := exec o (Stop Background) catproc_started in
  no_process (dmn catproc_started) = false /\
  In (Ev (Kill (- 4242) SIGINT) (Some (Errno ESRCH))) (trace r) /\
  out r = Returned (Some (Errorf "sigterm: %w" [] (Errno ESRCH))) /\
  existsb is_select (trace r) = false.
Proof.
  vm_compute. split; [reflexivity|]. split; [|split; reflexivity].
  right. left. reflexivity.
Qed.

(** *** The theorems at concrete daemons *)

Lemma Stop_not_running_witness :
  (no_process (dmn catproc) = true /\ mu (dmn catproc) = false) /\
  out (exec (always calm) (Stop Background) catproc) =
    Returned (Some ErrDaemonNotRunning) /\
  final (exec (always calm) (Stop Background) catproc) = catproc.
Proof.
  split; [split; reflexivity|].
  apply Stop_not_running; reflexivity.
Defined.



End SupervisorProps.

(** ** The log buffer in use *)

Module LoggerUse.
Import Logger.

Lemma skipn_last_step {A} (l : list A) (x : A) (rest : list A) d c :
  (List.length l <= c)%nat ->
  d = (List.length (l ++ [x]) - c)%nat ->
  let kept := skipn d (l ++ [x]) in
  skipn (List.length (kept ++ rest) - c) (kept ++ rest) =
  skipn (List.length ((l ++ [x]) ++ rest) - c) ((l ++ [x]) ++ rest).
Proof.
  intros Hl Hd kept. subst kept.
  assert (Hlen : List.length (l ++ [x]) = S (List.length l))
    by (rewrite length_app; simpl; lia).
  assert (Hd' : (d <= List.length (l ++ [x]))%nat) by lia.
  replace (skipn d (l ++ [x]) ++ rest) with (skipn d ((l ++ [x]) ++ rest)).
  - rewrite skipn_skipn, length_skipn. f_equal.
    rewrite length_app. lia.
  - rewrite skipn_app. replace (d - List.length (l ++ [x]))%nat with 0%nat by lia.
    reflexivity.
Qed.

Lemma Write_lines_skipn (m : memoryLogger) (p : list byte) :
  within_cap m ->
  let ls := lines m ++ [stored_line (string_of_list_byte p)] in
  lines (fst (Write m p)) = skipn (List.length ls - 1024) ls.
Proof.
  intros [Hmax Hlen] ls. unfold Lines in Hlen.
  rewrite LoggerProps.Write_lines. cbv zeta. rewrite Hmax. fold ls.
  assert (Hls : List.length ls = (List.length (lines m) + 1)%nat)
    by (unfold ls; rewrite length_app; reflexivity).
  destruct (Z.gtb_spec (Z.of_nat (List.length ls)) 1024).
  - replace (List.length ls - 1024)%nat with 1%nat by lia. reflexivity.
  - replace (List.length ls - 1024)%nat with 0%nat by lia. reflexivity.
Qed.

(** X1. The buffer is a queue of the latest lines: after any sequence of
    writes to a buffer within its cap, it holds, in order, the last 1024
    of the lines it held followed by the lines written, and all of them
    when they are fewer. *)
Theorem Write_keeps_latest (ps : list (list byte)) (m : memoryLogger) :
  within_cap m ->
  let all := lines m ++ map (fun p0 => stored_line (string_of_list_byte p0)) ps in
  lines (run_calls (map CallWrite ps) m) =
  skipn (List.length all - 1024) all.
Proof.
  revert m. induction ps as [|p ps IH]; intros m Hcap; cbv zeta.
  - simpl. rewrite app_nil_r.
    destruct Hcap as [_ Hlen]. unfold Lines in Hlen.
    replace (List.length (lines m) - 1024)%nat with 0%nat by lia.
    reflexivity.
  - change (run_calls (map CallWrite (p :: ps)) m)
      with (run_calls (map CallWrite ps) (fst (Write m p))).
    rewrite (IH _ (LoggerProps.within_cap_Write m p Hcap)). cbv zeta.
    rewrite (Write_lines_skipn m p Hcap). cbv zeta.
    simpl map.
    replace (lines m ++
             stored_line (string_of_list_byte p) ::
             map (fun p0 => stored_line (string_of_list_byte p0)) ps)
      with ((lines m ++ [stored_line (string_of_list_byte p)]) ++
            map (fun p0 => stored_line (string_of_list_byte p0)) ps)
      by (rewrite <- app_assoc; reflexivity).
    apply skipn_last_step; [|reflexivity].
    destruct Hcap as [_ Hlen]. unfold Lines in Hlen. lia.
Qed.

Lemma Write_keeps_latest_witness :
  within_cap NewMemoryLogger /\
  lines (run_calls (map CallWrite [hello; hello]) NewMemoryLogger) =
  ["hello world"; "hello world"].
Proof.
  assert (H : within_cap NewMemoryLogger)
    by (split; [reflexivity|cbv; discriminate]).
  split; [exact H|].
  exact (Write_keeps_latest [hello; hello] NewMemoryLogger H).
Defined.

(** X2. A write to a buffer that is not full followed by a read at the
    former line count gives back the line written, and only it, and
    leaves the buffer as it was before the write. *)
Theorem Write_then_ReadLine (m : memoryLogger) (p : list byte) :
  Lines m < maxLines m ->
  ReadLine (fst (Write m p)) (Lines m) = (m, ([stored_line (string_of_list_byte p)], None)).
Proof.
  intros Hlt. unfold ReadLine.
  rewrite LoggerProps.Write_lines. cbv zeta. unfold Lines in *.
  rewrite length_app. simpl List.length.
  destruct (Z.gtb_spec (Z.of_nat (List.length (lines m) + 1)) (maxLines m));
    [lia|].
  rewrite length_app. simpl List.length.
  destruct (Z.ltb_spec (Z.of_nat (List.length (lines m))) 0); [lia|].
  destruct (Z.geb_spec (Z.of_nat (List.length (lines m)))
              (Z.of_nat (List.length (lines m) + 1))); [lia|].
  simpl orb. cbv iota. rewrite Nat2Z.id.
  rewrite skipn_app, firstn_app, skipn_all, firstn_all, Nat.sub_diag.
  simpl. rewrite app_nil_r. destruct m; reflexivity.
Qed.

Lemma Write_then_ReadLine_witness :
  Lines three_lines < maxLines three_lines /\
  ReadLine (fst (Write three_lines hello)) 3 =
  (three_lines, (["hello world"], None)).
Proof.
  assert (H : Lines three_lines < maxLines three_lines) by reflexivity.
  split; [exact H|].
  exact (Write_then_ReadLine three_lines hello H).
Defined.

End LoggerUse.

(** ** The supervisor in use *)

Module DaemonUse.
Import Logger Supervisor Cases.

Ltac cases :=
  repeat (cbn;
          match goal with
          | |- context [if ?b then _ else _] => destruct b
          | |- context [match ?x with Some _ => _ | None => _ end] =>
              destruct x
          end);
  cbn.

Ltac settle := cases; try (split; [reflexivity|intros; discriminate]).

Lemma Stop_select_reads (o : env) n ctx g w h :
  final (exec_from o n (Stop_select ctx g) w h) = w /\
  forall m, out (exec_from o n (Stop_select ctx g) w h) <> Panicked m.
Proof.
  unfold Stop_select. cbn.
  destruct (o n _ (Select [ChCtxDone ctx; ChDone; ChAfter 10]))
    as [|[|[|i]]]; settle.
  all: destruct i; settle.
Qed.

Lemma Stop_locked_reads (o : env) n ctx w h :
  final (exec_from o n (Stop_locked ctx) w h) = w /\
  forall m, out (exec_from o n (Stop_locked ctx) w h) <> Panicked m.
Proof.
  destruct w as [[nm co lg wd cm m ee dn] f].
  unfold Stop_locked, pgid, no_process.
  remember (Stop_select ctx) as sel eqn:Hsel. cbn.
  destruct cm as [[cc pa ar so se di sp [pid|]]|]; settle.
  destruct (o (S (S n)) _ (Getpgid pid)) as [g [err|]]; settle.
  all: subst sel; apply Stop_select_reads.
Qed.

(** A run of [p] followed by [f]: the run of [p], then that of [f] from
    where [p] returned. *)
Lemma exec_from_bind {A B} (o : env) (p : prog A) (f : A -> prog B) n w h :
  exists n',
    exec_from o n (bind p f) w h =
    match out (exec_from o n p w h) with
    | Returned a =>
        exec_from o n' (f a) (final (exec_from o n p w h))
          (trace (exec_from o n p w h))
    | Panicked m =>
        {| out := Panicked m; final := final (exec_from o n p w h);
           trace := trace (exec_from o n p w h) |}
    | Waiting =>
        {| out := Waiting; final := final (exec_from o n p w h);
           trace := trace (exec_from o n p w h) |}
    end.
Proof.
  revert n w h. induction p as [a|m|X e k IH]; intros n w h; cbn.
  - exists n. reflexivity.
  - exists n. reflexivity.
  - destruct (handle e w (o n X e)) as [x w'| |m]; cbn.
    + apply IH.
    + exists n. reflexivity.
    + exists n. reflexivity.
Qed.

(** A run of [Stop], from any point of a longer run. *)
Lemma Stop_run (o : env) n (ctx : Context) (w : world) h :
  let r := exec_from o n (Stop ctx) w h in
  if mu (dmn w)
  then out r = Waiting /\ final r = w /\ trace r = h
  else match out r with
       | Returned _ => final r = w
       | Waiting => final r = on_dmn (set_mu true) w
       | Panicked _ => False
       end.
Proof.
  intros r. subst r. unfold Stop.
  remember (Stop_locked ctx) as locked eqn:Hl. cbn.
  destruct (mu (dmn w)) eqn:Hm; [auto|].
  destruct (exec_from_bind o locked (fun r => MuUnlock ;; Ret r)%prog (S n)
              (on_dmn (set_mu true) w) (Ev MuLock tt :: h)) as [n' E].
  cbn in E. rewrite E. clear E. subst locked.
  destruct (Stop_locked_reads o (S n) ctx (on_dmn (set_mu true) w)
              (Ev MuLock tt :: h)) as [Hf Hp].
  destruct (out (exec_from o (S n) (Stop_locked ctx)
                   (on_dmn (set_mu true) w) (Ev MuLock tt :: h)))
    as [r|m|] eqn:Ho.
  - rewrite Hf. cbn. apply SupervisorProps.unlock_lock, Hm.
  - exact (Hp m eq_refl).
  - cbn. exact Hf.
Qed.


(** X3. [Stop] called with the mutex free never panics.  When it returns,
    whatever it returns, it leaves the daemon exactly as it found it: it
    does not clear the process handle, and it only reads [d.exitError]
    and [d.done].  When it waits, for [d.done] or for a case of its
    [select], it waits with the mutex held and nothing else changed. *)
Theorem Stop_leaves_daemon (o : env) (ctx : Context) (w : world) :
  mu (dmn w) = false ->
  match out (exec o (Stop ctx) w) with
  | Returned _ => final (exec o (Stop ctx) w) = w
  | Waiting => final (exec o (Stop ctx) w) = on_dmn (set_mu true) w
  | Panicked _ => False
  end.
Proof.
  intros Hm. pose proof (Stop_run o 0 ctx w []) as H. cbv zeta in H.
  rewrite Hm in H. exact H.
Qed.

Lemma Stop_leaves_daemon_witness :
  mu (dmn catproc_started) = false /\
  final (exec (always (with_select 1 calm)) (Stop Background)
           (on_dmn (set_done true) catproc_started)) =
  on_dmn (set_done true) catproc_started.
Proof.
  split; [reflexivity|].
  exact (Stop_leaves_daemon (always (with_select 1 calm)) Background
           (on_dmn (set_done true) catproc_started) eq_refl).
Defined.

Lemma Stop_without_process (o : env) (ctx : Context) (w : world) :
  no_process (dmn w) = true -> mu (dmn w) = false ->
  out (exec o (Stop ctx) w) = Returned (Some ErrDaemonNotRunning).
Proof.
  intros Hn Hm. destruct w as [[nm co lg wd cm m ee dn] f].
  unfold no_process in Hn. cbn in Hn, Hm. subst m.
  unfold exec, Stop, Stop_locked, no_process. cbn.
  destruct cm as [[cc pa ar so se di sp [pid|]]|]; try discriminate;
    reflexivity.
Qed.

Lemma Status_without_process (o : env) (w : world) :
  no_process (dmn w) = true ->
  exec o Status w =
  {| out := Returned (DaemonStatusStopped, None); final := w;
     trace := [Ev Load (dmn w)] |}.
Proof. intros Hn. unfold exec, Status. cbn. rewrite Hn. reflexivity. Qed.

(** X4. When the spawn fails, [Start] returns the error wrapped and
    starts no goroutine, and the daemon is left without a process: a
    later [Status] reports it stopped without error and without asking
    the operating system, and a later [Stop] returns
    [ErrDaemonNotRunning]. *)
Theorem Start_failed_spawn (o o1 o2 : env) (ctx ctx' : Context) (w : world)
  name arg err :
  Commands (dmn w) = name :: arg ->
  mu (dmn w) = false ->
  snd (o 6%nat _ CmdStart) = Some err ->
  let r := exec o (Start ctx) w in
  out r = Returned (Some (Errorf "failed to start daemon %s: %w"
                            [Name (dmn w)] err)) /\
  spawned (trace r) = [] /\
  no_process (dmn (final r)) = true /\
  exec o1 Status (final r) =
    {| out := Returned (DaemonStatusStopped, None); final := final r;
       trace := [Ev Load (dmn (final r))] |} /\
  out (exec o2 (Stop ctx') (final r)) = Returned (Some ErrDaemonNotRunning).
Proof.
  intros Hc Hm Hs r.
  assert (H : out r = Returned (Some (Errorf "failed to start daemon %s: %w"
                                        [Name (dmn w)] err)) /\
              spawned (trace r) = [] /\
              no_process (dmn (final r)) = true /\
              mu (dmn (final r)) = false).
  { subst r. destruct w as [[nm co lg wd cm m ee dn] f].
    cbn in Hc, Hm. subst m co.
    unfold exec, Start. cbn.
    destruct (o 6%nat _ CmdStart) as [pid [e|]]; cbn in Hs; [|discriminate].
    inversion Hs; subst e. cbn. repeat split; reflexivity. }
  destruct H as (H1 & H2 & H3 & H4).
  split; [exact H1|]. split; [exact H2|]. split; [exact H3|].
  split; [now apply Status_without_process|now apply Stop_without_process].
Qed.

(** X5. A report of a stopped daemon without error is final: once
    [Status] has returned it, the daemon has no process handle, every
    later [Status] returns the same without any system call, and [Stop]
    returns [ErrDaemonNotRunning]. *)
Theorem Status_settles (o o1 o2 : env) (ctx : Context) (w : world) :
  out (exec o Status w) = Returned (DaemonStatusStopped, None) ->
  let w' := final (exec o Status w) in
  no_process (dmn w') = true /\
  exec o1 Status w' =
    {| out := Returned (DaemonStatusStopped, None); final := w';
       trace := [Ev Load (dmn w')] |} /\
  (mu (dmn w) = false ->
   out (exec o2 (Stop ctx) w') = Returned (Some ErrDaemonNotRunning)).
Proof.
  intros Hout w'.
  assert (H : no_process (dmn w') = true /\ mu (dmn w') = mu (dmn w)).
  { subst w'. revert Hout.
    destruct w as [[nm co lg wd cm m ee dn] f].
    unfold exec, Status, pgid, no_process. cbn.
    destruct cm as [[cc pa ar so se di sp [pid|]]|]; cbn; auto.
    destruct (o 2%nat _ (Getpgid pid)) as [g [e|]]; cbn.
    - destruct (errors_Is e (Errno ESRCH)); cbn; [auto|discriminate].
    - destruct (o 3%nat _ (Kill (- g) 0)) as [e|]; cbn; [|discriminate].
      destruct (errors_Is e ErrProcessDone); cbn; [auto|discriminate]. }
  destruct H as [Hn Hm].
  split; [exact Hn|]. split; [now apply Status_without_process|].
  intros Hfree. apply Stop_without_process; [exact Hn|congruence].
Qed.

(** X6. The waiter goroutine records the outcome of [Wait] and closes
    [d.done]: it always runs to its end; [d.exitError] is set, to the
    wrapped error, exactly when [Wait] gives an [*exec.ExitError] of a
    child that was neither ended by a signal nor exited with code 0, and
    nothing else of the daemon changes but [d.done].  Run on a daemon
    whose [d.done] is closed already (a second [Start] of the same
    daemon), it panics on the close. *)
Theorem waiter_outcome (o : env) (ctx : Context) (w : world) :
  let r := exec o (waiter ctx) w in
  let recorded :=
    match o 0%nat _ CmdWait with
    | Some err =>
        match errors_As_ExitError err with
        | Some ws =>
            if Signaled ws || (Exited ws && (ExitCode ws =? 0)) then None
            else Some (Errorf "daemon %s exited with error: %w"
                         [Name (dmn w)] err)
        | None => None
        end
    | None => None
    end in
  let d := match recorded with
           | Some e => set_exitError (Some e) (dmn w)
           | None => dmn w
           end in
  if done (dmn w)
  then out r = Panicked "close of closed channel" /\ dmn (final r) = d
  else out r = Returned tt /\ dmn (final r) = set_done true d.
Proof.
  destruct w as [[nm co lg wd cm m ee dn] f].
  unfold exec, waiter, waiter_body. cbn.
  destruct (o 0%nat _ CmdWait) as [err|]; cbn.
  - destruct (errors_As_ExitError err) as [ws|]; cbn.
    + destruct (Signaled ws); cbn; [destruct dn; cbn; auto|].
      destruct (Exited ws && (ExitCode ws =? 0)); cbn; destruct dn; cbn; auto.
    + destruct dn; cbn; auto.
  - destruct dn; cbn; auto.
Qed.

(** X7. [Start] of the first declaration of daemon.go makes the command
    under the caller's own context: the [exec] package kills the child
    exactly when that context is done, and no goroutine is started. *)
Theorem Start_v1_follows_context (o : env) (ctx : Context) (w : world)
  name arg :
  Commands (dmn w) = name :: arg ->
  let r := exec o (Start_v1 ctx) w in
  spawned (trace r) = [] /\
  exists c, cmd (dmn (final r)) = Some c /\
            cmd_ctx c = ctx /\
            forall fired, exec_kills_child fired c = ctx_done fired ctx.
Proof.
  intros Hc r. subst r.
  destruct w as [[nm co lg wd cm m ee dn] f]. cbn in Hc. subst co.
  unfold exec, Start_v1. cbn.
  destruct (o 6%nat _ CmdStart) as [pid [e|]]; cbn;
    (split; [reflexivity|]); eexists; split; try reflexivity;
    split; reflexivity.
Qed.

Lemma Start_failed_spawn_witness :
  let o := always failing_spawn in
  (Commands (dmn catproc) = ["cat"] /\ mu (dmn catproc) = false /\
   snd (o 6%nat _ CmdStart) = Some not_found) /\
  out (exec (always calm) (Stop Background)
         (final (exec o (Start Background) catproc))) =
  Returned (Some ErrDaemonNotRunning).
Proof.
  intros o. split; [repeat split; reflexivity|].
  apply (Start_failed_spawn o (always calm) (always calm) Background
           Background catproc "cat" [] not_found
           eq_refl eq_refl eq_refl).
Defined.

Lemma Status_settles_witness :
  out (exec (always calm) Status catproc) =
    Returned (DaemonStatusStopped, None) /\
  no_process (dmn (final (exec (always calm) Status catproc))) = true.
Proof.
  split; [reflexivity|].
  apply (Status_settles (always calm) (always calm) (always calm)
           Background catproc eq_refl).
Defined.

Lemma Start_v1_follows_context_witness :
  Commands (dmn catproc) = ["cat"] /\
  spawned (trace (exec (always calm) (Start_v1 (WithCancel 0 Background))
                    catproc)) = [].
Proof.
  split; [reflexivity|].
  apply (Start_v1_follows_context (always calm) (WithCancel 0 Background)
           catproc "cat" [] eq_refl).
Defined.

End DaemonUse.

(** ** The daemon among its callers, in use *)

Module PoolUse.
Import Logger Supervisor Cases.

(** X8. In every interleaving of one call of [Start] with calls of
    [Stop] and [Status], the goroutines, cancellations and output of the
    child, at most one waiter goroutine is ever started, and [d.done] is
    closed exactly when that waiter has been started and has run to its
    end: nothing else closes the channel, and it is closed once. *)
Theorem done_iff_waiter_completed name commands workdir ctx stops polls p :
  reaches (initial name commands workdir ctx stops polls) p ->
  (waiters (goroutines p) <= 1)%nat /\
  (done (dmn (shared p)) = true <-> waiter_completed p).
Proof.
  intros [ms Hms].
  pose proof (SupervisorProps.play_all_inv _ _ _ Hms
                (SupervisorProps.initial_inv _ _ _ _ _ _)) as Hinv.
  destruct Hinv as [Hst Hdn Hss Hps Hgs].
  rewrite Forall_forall in Hgs.
  split; [destruct Hst as (n & _ & Hle); lia|].
  split.
  - intros Hdone. specialize (Hdn Hdone).
    destruct (SupervisorProps.waiters_some (goroutines p)) as (g & Hin & Hw);
      [lia|].
    exists g. split; [exact Hin|]. split; [exact Hw|].
    intros g' Hin' Hw'. specialize (Hgs g' Hin').
    unfold goroutine_ok in Hgs. rewrite Hw', Hdone in Hgs.
    unfold returned. now rewrite Hgs.
  - intros (g & Hin & Hw & Hall).
    specialize (Hall g Hin Hw). specialize (Hgs g Hin).
    unfold goroutine_ok in Hgs. rewrite Hw in Hgs.
    destruct (done (dmn (shared p))); [reflexivity|].
    unfold returned in Hall.
    destruct (code (snd g)); try discriminate. destruct Hgs.
Qed.






Lemma done_iff_waiter_completed_witness :
  let p := after (natural_exit (on_wait calm)) catproc_pool in
  reaches catproc_pool p /\
  (done (dmn (shared p)) = true <-> waiter_completed p).
Proof.
  intros p.
  assert (H : reaches catproc_pool p)
    by (exists (natural_exit (on_wait calm)); vm_compute; reflexivity).
  split; [exact H|].
  exact (proj2 (done_iff_waiter_completed "catproc" ["cat"] "/tmp"
                  Background [Background] 0 p H)).
Defined.


End PoolUse.

(** ** The tools of the server *)

Module ToolsUse.
Import Logger Supervisor Tools Cases.

(** *** The registry *)

Lemma map_get_delete name k m :
  map_get k (map_delete name m) =
  if String.eqb name k then None else map_get k m.
Proof.
  unfold map_delete.
  induction m as [|[k' d] m IH]; cbn; [now destruct (String.eqb name k)|].
  destruct (String.eqb_spec k' name) as [->|Hn]; cbn.
  - rewrite IH. destruct (String.eqb_spec name k) as [->|Hk]; [reflexivity|].
    destruct (String.eqb_spec name k); [contradiction|reflexivity].
  - destruct (String.eqb_spec k' k) as [->|Hk].
    + destruct (String.eqb_spec name k); [congruence|reflexivity].
    + exact IH.
Qed.

Lemma map_get_set name d k m :
  map_get k (map_set name d m) =
  if String.eqb name k then Some d else map_get k m.
Proof.
  unfold map_set. cbn. rewrite map_get_delete.
  destruct (String.eqb name k); reflexivity.
Qed.

Lemma map_get_set_other name d k m :
  k <> name -> map_get k (map_set name d m) = map_get k m.
Proof.
  intros H. rewrite map_get_set.
  destruct (String.eqb_spec name k); [congruence|reflexivity].
Qed.

Lemma map_get_set_same name d m : map_get name (map_set name d m) = Some d.
Proof. rewrite map_get_set, String.eqb_refl. reflexivity. Qed.

(** *** [daemonize_start] *)


Lemma strings_of_Some items command :
  strings_of items = Some command -> items = map JString command.
Proof.
  revert command. induction items as [|v items IH]; cbn; intros command H.
  - inversion H. reflexivity.
  - destruct v; try discriminate.
    destruct (strings_of items) as [cs|]; [|discriminate].
    inversion H; subst. cbn. f_equal. now apply IH.
Qed.

Lemma forallb_strings command :
  forallb (fun v => match v with JString _ => true | _ => false end)
    (map JString command) = true.
Proof. induction command; cbn; auto. Qed.

Lemma strings_of_None items :
  strings_of items = None ->
  forallb (fun v => match v with JString _ => true | _ => false end) items
  = false.
Proof.
  induction items as [|v items IH]; cbn; [discriminate|].
  destruct v; try reflexivity.
  destruct (strings_of items); [discriminate|]. intros _. now apply IH.
Qed.

(** X10. [daemonize_start] checks its arguments before anything else:
    either [name] is a string, [command] an array of strings and
    [workdir] a string, or the handler returns the error result that names
    the first of them that is not, leaves the registry as it was and runs
    nothing. *)
Theorem start_tool_checks (o : env) sctx fired s (args : Arguments) :
  (exists name command workdir,
     arg args "name" = Some (JString name) /\
     arg args "command" = Some (JArray (map JString command)) /\
     arg args "workdir" = Some (JString workdir)) \/
  (exists msg,
     start_tool o sctx fired s args = respond (NewToolResultError msg) s [] /\
     msg =
       match as_string (arg args "name") with
       | None => "invalid name parameter"
       | Some _ =>
           match as_array (arg args "command") with
           | None => "invalid command parameter"
           | Some items =>
               if forallb (fun v => match v with JString _ => true | _ => false end)
                    items
               then "invalid workdir parameter"
               else "invalid command parameter"
           end
       end).
Proof.
  unfold start_tool.
  destruct (arg args "name") as [[| | |name| |]|] eqn:Hn; cbn;
    try (right; eexists; split; reflexivity).
  destruct (arg args "command") as [[| | | |items|]|] eqn:Hc; cbn;
    try (right; eexists; split; reflexivity).
  destruct (strings_of items) as [command|] eqn:Hs.
  - apply strings_of_Some in Hs. subst items.
    destruct (arg args "workdir") as [[| | |workdir| |]|] eqn:Hw; cbn;
      try (right; eexists; split; [reflexivity|]; rewrite forallb_strings;
           reflexivity).
    left. exists name, command, workdir. auto.
  - right. eexists. split; [reflexivity|].
    rewrite (strings_of_None _ Hs). reflexivity.
Qed.




(** *** [daemonize_stop] *)


Lemma Status_dead (o : env) (w : world) :
  (no_process (dmn w) = true \/
   exists c pid g err,
     cmd (dmn w) = Some c /\ Process c = Some pid /\
     o 2%nat _ (Getpgid pid) = (g, Some err) /\
     errors_Is err (Errno ESRCH) = true) ->
  out (exec o Status w) = Returned (DaemonStatusStopped, None) /\
  existsb (fun ev => match ev with
                     | Ev e _ => match e with Kill _ _ => true | _ => false end
                     end) (trace (exec o Status w)) = false.
Proof.
  destruct w as [[nm co lg wd cm m ee dn] f].
  unfold exec, Status, pgid, no_process. cbn.
  intros [Hnp|(c & pid & g & err & Hc & Hp & Hg & He)].
  - destruct cm as [[cc pa ar so se di sp [pid|]]|]; try discriminate;
      cbn; auto.
  - subst cm. destruct c as [cc pa ar so se di sp pr]. cbn in Hp. subst pr.
    cbn. rewrite Hg. cbn. rewrite He. cbn. auto.
Qed.

(** X14. [daemonize_stop] of a registered daemon whose process is gone,
    be it that the daemon has no process handle or that [Getpgid] finds
    no such process: the handler sends no signal, removes the daemon from
    the registry and returns the text [Daemon already stopped]. *)
Theorem stop_tool_dead_daemon (o : env) sctx fired s (args : Arguments)
  name d :
  arg args "name" = Some (JString name) ->
  map_get name (Daemons s) = Some d ->
  (no_process d = true \/
   exists c pid g err,
     cmd d = Some c /\ Process c = Some pid /\
     o 2%nat _ (Getpgid pid) = (g, Some err) /\
     errors_Is err (Errno ESRCH) = true) ->
  let r := stop_tool o sctx fired s args in
  result r = Returned (NewToolResultText "Daemon already stopped") /\
  map_get name (Daemons (server r)) = None /\
  existsb (fun ev => match ev with
                     | Ev e _ => match e with Kill _ _ => true | _ => false end
                     end) (ops r) = false.
Proof.
  intros Hn Hd Hdead r. subst r. unfold stop_tool.
  rewrite Hn. cbn [as_string]. rewrite Hd.
  unfold call. cbn [List.length].
  change (exec_from o 0 Status {| dmn := d; fired := fired |} [])
    with (exec o Status {| dmn := d; fired := fired |}).
  destruct (Status_dead o {| dmn := d; fired := fired |} Hdead) as [Ho Hk].
  cbv zeta. rewrite Ho.
  replace (negb (String.eqb DaemonStatusStopped DaemonStatusRunning))
    with true by reflexivity.
  cbn [result server ops respond delete_daemon set_daemon Daemons].
  rewrite map_get_delete, String.eqb_refl. auto.
Qed.

(** *** [daemonize_logs] *)

Lemma append_assoc (a b c : string) :
  ((a ++ b) ++ c)%string = (a ++ (b ++ c))%string.
Proof. induction a as [|x a IH]; cbn; [reflexivity|now rewrite IH]. Qed.

Lemma logs_loop_numbered offset i ls text :
  logs_loop offset i ls text = (text ++ numbered (i + 1 + offset) ls)%string.
Proof.
  revert i text.
  induction ls as [|line rest IH]; intros i text; cbn [logs_loop numbered].
  - induction text as [|x t IHt]; cbn; [reflexivity|now rewrite <- IHt].
  - rewrite IH. rewrite !append_assoc.
    replace (i + 1 + 1 + offset) with (i + 1 + offset + 1) by lia.
    reflexivity.
Qed.

(** The read of the last [k] lines. *)
Lemma ReadLine_last (m : memoryLogger) (k : Z) :
  0 < k <= Lines m ->
  ReadLine m (Z.max 0 (Lines m - k)) =
  ({| lines := firstn (Z.to_nat (Lines m - k)) (lines m);
      maxLines := maxLines m |},
   (skipn (Z.to_nat (Lines m - k)) (lines m), None)).
Proof.
  intros Hk. unfold ReadLine, Lines in *.
  replace (Z.max 0 (Z.of_nat (List.length (lines m)) - k))
    with (Z.of_nat (List.length (lines m)) - k) by lia.
  destruct (Z.ltb_spec (Z.of_nat (List.length (lines m)) - k) 0); [lia|].
  destruct (Z.geb_spec (Z.of_nat (List.length (lines m)) - k)
              (Z.of_nat (List.length (lines m)))); [lia|].
  reflexivity.
Qed.

Lemma ReadLine_nothing (m : memoryLogger) (k : Z) :
  k <= 0 ->
  ReadLine m (Z.max 0 (Lines m - k)) = (m, ([], Some EOF)).
Proof.
  intros Hk. unfold ReadLine, Lines in *.
  destruct (Z.ltb_spec (Z.max 0 (Z.of_nat (List.length (lines m)) - k)) 0);
    [reflexivity|].
  destruct (Z.geb_spec (Z.max 0 (Z.of_nat (List.length (lines m)) - k))
              (Z.of_nat (List.length (lines m)))); [reflexivity|lia].
Qed.

Lemma set_Logger_same (d : Daemon) : set_Logger (Logger d) d = d.
Proof. destruct d; reflexivity. Qed.

(** The number of lines that [daemonize_logs] reads for [tail]. *)
Lemma float64_tail (n : Z) (tail : Q) :
  0 <= n ->
  float64_lt tail 0 = false ->
  int64_of_float64
    (if float64_lt (float64_of_int64 n) tail then float64_of_int64 n
     else tail) =
  Z.min n (int64_of_float64 tail).
Proof.
  intros Hn Hpos. destruct tail as [p q].
  unfold float64_lt, float64_of_int64, int64_of_float64, Qle_bool, inject_Z
    in *. cbn in *.
  apply Bool.negb_false_iff in Hpos. apply Z.leb_le in Hpos.
  assert (H0 : 0 <= p) by lia.
  destruct (Z.leb_spec (p * 1) (n * Z.pos q)) as [Hle|Hgt]; cbn.
  - rewrite Z.quot_div_nonneg by lia.
    assert (p / Z.pos q <= n)
      by (apply Z.div_le_upper_bound; lia).
    lia.
  - rewrite Z.quot_1_r.
    rewrite Z.quot_div_nonneg by lia.
    assert (n <= p / Z.pos q)
      by (apply Z.div_le_lower_bound; lia).
    lia.
Qed.

Lemma float64_lt_iff (a b : Q) : float64_lt a b = true <-> (a < b)%Q.
Proof.
  unfold float64_lt. rewrite Bool.negb_true_iff.
  split; intros H.
  - apply Qnot_le_lt. intros Hle. apply Qle_bool_iff in Hle. congruence.
  - destruct (Qle_bool b a) eqn:E; [|reflexivity].
    apply Qle_bool_iff in E. exfalso. exact (Qlt_not_le _ _ H E).
Qed.

(** What both declarations of the handler do once [tail] is known to be
    positive and [k] lines are to be read. *)
Lemma read_tail (s : Server) name d (k : Z) :
  0 <= k <= Lines (Logger d) ->
  let n := Lines (Logger d) in
  let '(logger, (ls, err)) := ReadLine (Logger d) (Z.max 0 (n - k)) in
  (forall k', k' <> name ->
     map_get k' (Daemons (set_logger name d logger s)) =
     map_get k' (Daemons s)) /\
  if k =? 0
  then err = Some EOF /\
       map_get name (Daemons (set_logger name d logger s)) = Some d
  else err = None /\
       logs_loop (Z.max 0 (n - k)) 0 ls ("Daemon logs:" ++ nl) =
         ("Daemon logs:" ++ nl ++
          numbered (n - k + 1)
            (skipn (Z.to_nat (n - k)) (lines (Logger d))))%string /\
       map_get name (Daemons (set_logger name d logger s)) =
         Some (set_Logger
                 {| lines := firstn (Z.to_nat (n - k)) (lines (Logger d));
                    maxLines := maxLines (Logger d) |} d).
Proof.
  intros Hk n. subst n.
  assert (Hother : forall l k', k' <> name ->
            map_get k' (Daemons (set_logger name d l s)) =
            map_get k' (Daemons s))
    by (intros l k' Hk'; unfold set_logger, set_daemon; cbn [Daemons];
        now apply map_get_set_other).
  assert (Hsame : forall l,
            map_get name (Daemons (set_logger name d l s)) =
            Some (set_Logger l d))
    by (intros l; unfold set_logger, set_daemon; cbn [Daemons];
        apply map_get_set_same).
  destruct (Z.eqb_spec k 0) as [->|Hk0].
  - rewrite ReadLine_nothing by lia.
    split; [apply Hother|]. split; [reflexivity|].
    rewrite Hsame, set_Logger_same. reflexivity.
  - rewrite ReadLine_last by lia.
    split; [apply Hother|]. split; [reflexivity|].
    split; [|apply Hsame].
    rewrite logs_loop_numbered, append_assoc.
    replace (0 + 1 + Z.max 0 (Lines (Logger d) - k))
      with (Lines (Logger d) - k + 1) by lia.
    reflexivity.
Qed.

(** X15. [daemonize_logs] of a registered daemon, with a number for
    [tail].  A negative [tail] is an error and a [tail] of zero gives [No
    logs available], the buffer untouched.  Otherwise the handler reads
    [k] lines, [k] being the lesser of the line count [n] and [tail]
    without its fraction: for [k] zero, on an empty buffer or a [tail]
    below one, the read fails and the handler returns the error [failed
    to read logs]; else the result lists the last [k] lines, numbered from
    [n - k + 1], and these lines are removed from the buffer, which keeps
    the [n - k] lines before them.  No other daemon is touched. *)
Theorem logs_tool_tail (s : Server) (args : Arguments) name d (tail : Q) :
  arg args "name" = Some (JString name) ->
  map_get name (Daemons s) = Some d ->
  arg args "tail" = Some (JNumber tail) ->
  let n := Lines (Logger d) in
  let k := Z.min n (int64_of_float64 tail) in
  let r := logs_tool s args in
  ((tail < 0)%Q ->
   r = (NewToolResultError "tail parameter must be non-negative", s)) /\
  ((tail == 0)%Q -> r = (NewToolResultText "No logs available", s)) /\
  ((0 < tail)%Q ->
   (forall k', k' <> name ->
      map_get k' (Daemons (snd r)) = map_get k' (Daemons s)) /\
   if k =? 0
   then fst r = NewToolResultErrorFromErr "failed to read logs" EOF /\
        map_get name (Daemons (snd r)) = Some d
   else fst r =
          NewToolResultText
            ("Daemon logs:" ++ nl ++
             numbered (n - k + 1)
               (skipn (Z.to_nat (n - k)) (lines (Logger d)))) /\
        map_get name (Daemons (snd r)) =
          Some (set_Logger
                  {| lines := firstn (Z.to_nat (n - k)) (lines (Logger d));
                     maxLines := maxLines (Logger d) |} d)).
Proof.
  intros Hn Hd Ht n k r. subst r. unfold logs_tool.
  rewrite Hn. cbn [as_string]. rewrite Hd, Ht. cbn [as_float64].
  split; [|split].
  - intros Hneg. apply float64_lt_iff in Hneg. rewrite Hneg. reflexivity.
  - intros Hz.
    destruct (float64_lt tail 0) eqn:Hlt.
    { apply float64_lt_iff in Hlt. rewrite Hz in Hlt.
      exfalso. exact (Qlt_irrefl _ Hlt). }
    apply Qeq_eq_bool in Hz. rewrite Hz. reflexivity.
  - intros Hpos.
    destruct (float64_lt tail 0) eqn:Hlt.
    { apply float64_lt_iff in Hlt. exfalso.
      exact (Qlt_irrefl _ (Qlt_trans _ _ _ Hpos Hlt)). }
    destruct (Qeq_bool tail 0) eqn:Hz.
    { apply Qeq_bool_eq in Hz. rewrite Hz in Hpos.
      exfalso. exact (Qlt_irrefl _ Hpos). }
    assert (Hn0 : 0 <= Lines (Logger d)) by (unfold Lines; lia).
    rewrite (float64_tail (Lines (Logger d)) tail Hn0 Hlt).
    fold n. fold k.
    assert (Hk : 0 <= k <= Lines (Logger d)).
    { subst k n. split; [|lia].
      apply Z.min_glb; [exact Hn0|].
      destruct tail as [p q]. unfold int64_of_float64. cbn.
      apply Z.quot_pos; [|lia].
      unfold Qlt in Hpos. cbn in Hpos. lia. }
    pose proof (read_tail s name d k Hk) as Hr. cbv zeta in Hr.
    fold n in Hr.
    destruct (ReadLine (Logger d) (Z.max 0 (n - k))) as [logger [ls err]].
    destruct Hr as [Hother Hr].
    destruct (k =? 0).
    + destruct Hr as [-> Hsame]. cbn [fst snd errors_Is error_eqb].
      split; [exact Hother|]. split; [reflexivity|exact Hsame].
    + destruct Hr as (-> & Htext & Hsame). cbn [fst snd].
      rewrite Htext. auto.
Qed.

(** X16. The later declaration of [daemonize_logs], which reads [tail]
    as an integer: as before, but [k] is the lesser of the line count and
    [tail], and on an empty buffer the handler returns the text [No logs
    available] instead of an error. *)
Theorem logs_tool_int_tail (s : Server) name d (tail : Z) :
  map_get name (Daemons s) = Some d ->
  let n := Lines (Logger d) in
  let k := Z.min n tail in
  let r := logs_tool_int s (name, None) (tail, None) in
  (tail < 0 ->
   r = (NewToolResultError "tail parameter must be non-negative", s)) /\
  (tail = 0 -> r = (NewToolResultText "No logs available", s)) /\
  (0 < tail ->
   (forall k', k' <> name ->
      map_get k' (Daemons (snd r)) = map_get k' (Daemons s)) /\
   if k =? 0
   then fst r = NewToolResultText "No logs available" /\
        map_get name (Daemons (snd r)) = Some d
   else fst r =
          NewToolResultText
            ("Daemon logs:" ++ nl ++
             numbered (n - k + 1)
               (skipn (Z.to_nat (n - k)) (lines (Logger d)))) /\
        map_get name (Daemons (snd r)) =
          Some (set_Logger
                  {| lines := firstn (Z.to_nat (n - k)) (lines (Logger d));
                     maxLines := maxLines (Logger d) |} d)).
Proof.
  intros Hd n k r. subst r. unfold logs_tool_int. cbn [fst snd].
  rewrite Hd.
  split; [|split].
  - intros Hneg. destruct (Z.ltb_spec tail 0); [reflexivity|lia].
  - intros ->. reflexivity.
  - intros Hpos.
    destruct (Z.ltb_spec tail 0); [lia|].
    destruct (Z.eqb_spec tail 0); [lia|].
    assert (Hn0 : 0 <= Lines (Logger d)) by (unfold Lines; lia).
    replace (if tail >? Lines (Logger d) then Lines (Logger d) else tail)
      with k
      by (subst k n; destruct (Z.gtb_spec tail (Lines (Logger d))); lia).
    fold n.
    assert (Hk : 0 <= k <= Lines (Logger d)) by (subst k n; lia).
    pose proof (read_tail s name d k Hk) as Hr. cbv zeta in Hr.
    fold n in Hr.
    destruct (ReadLine (Logger d) (Z.max 0 (n - k))) as [logger [ls err]].
    destruct Hr as [Hother Hr].
    destruct (k =? 0).
    + destruct Hr as [-> Hsame]. cbn [fst snd errors_Is error_eqb].
      split; [exact Hother|]. split; [reflexivity|exact Hsame].
    + destruct Hr as (-> & Htext & Hsame). cbn [fst snd].
      rewrite Htext. auto.
Qed.

(** *** [daemonize_list] *)










(** *** The theorems at concrete requests *)




Lemma stop_tool_dead_daemon_witness :
  (arg stop_cat "name" = Some (JString "catproc") /\
   map_get "catproc" (Daemons stale_daemon) = Some (set_cmd None logging) /\
   no_process (set_cmd None logging) = true) /\
  result (stop_tool (always calm) Background [] stale_daemon stop_cat) =
  Returned (NewToolResultText "Daemon already stopped").
Proof.
  split; [repeat split; reflexivity|].
  exact (proj1 (stop_tool_dead_daemon (always calm) Background []
                  stale_daemon stop_cat "catproc" (set_cmd None logging)
                  eq_refl eq_refl (or_introl eq_refl))).
Defined.

Lemma logs_tool_tail_witness :
  (arg last_two "name" = Some (JString "catproc") /\
   map_get "catproc" (Daemons one_daemon) = Some logging /\
   arg last_two "tail" = Some (JNumber (5 # 2)) /\
   (0 < 5 # 2)%Q) /\
  fst (logs_tool one_daemon last_two) =
  NewToolResultText
    ("Daemon logs:" ++ nl ++ "  2: b" ++ nl ++ "  3: c" ++ nl).
Proof.
  split; [repeat split; reflexivity|].
  exact (proj1 (proj2 (proj2 (proj2
           (logs_tool_tail one_daemon last_two "catproc" logging (5 # 2)
              eq_refl eq_refl eq_refl)) eq_refl))).
Defined.

Lemma logs_tool_int_tail_witness :
  (map_get "catproc" (Daemons one_daemon) = Some logging /\ 0 < 2) /\
  fst (logs_tool_int one_daemon ("catproc", None) (2, None)) =
  NewToolResultText
    ("Daemon logs:" ++ nl ++ "  2: b" ++ nl ++ "  3: c" ++ nl).
Proof.
  split; [split; reflexivity|].
  exact (proj1 (proj2 (proj2 (proj2
           (logs_tool_int_tail one_daemon "catproc" logging 2 eq_refl))
           eq_refl))).
Defined.


End ToolsUse.

(** ** The mutex in use *)

Module MutexUse.
Import Logger Supervisor Cases Mutex.

Lemma handle_mu {X} (e : eff X) w a x w' :
  handle e w a = Continue x w' ->
  match e with
  | MuLock => mu (dmn w) = false /\ mu (dmn w') = true
  | MuUnlock => mu (dmn w) = true /\ mu (dmn w') = false
  | _ => mu (dmn w') = mu (dmn w)
  end.
Proof.
  destruct e; cbn; intros H;
    repeat match type of H with
           | context [if ?b then _ else _] => destruct b eqn:?
           | context [match ?x with _ => _ end] => destruct x eqn:?
           end;
    try discriminate; inversion H; subst; auto.
Qed.

Lemma handle_fault {X} (e : eff X) w a msg :
  handle e w a = Fault msg ->
  msg = unlock_panic ->
  mu (dmn w) = false /\ match e with MuUnlock => True | _ => False end.
Proof.
  destruct e; cbn; intros H;
    repeat match type of H with
           | context [if ?b then _ else _] => destruct b eqn:?
           | context [match ?x with _ => _ end] => destruct x eqn:?
           end;
    try discriminate; inversion H; subst; try discriminate; auto.
Qed.

(** One operation of a thread that locks and unlocks in turn: what it
    adds to the holders of the mutex is what it adds to the mutex. *)
Lemma advance_mutex {R} a w (t : thread R) w' t' g :
  advance a w t = Some (w', t', g) ->
  paired t ->
  (holding (hist t) = true -> mu (dmn w) = true) ->
  paired t' /\
  (count_holding [hist t'] + locked w =
   count_holding [hist t] + locked w')%nat.
Proof.
  unfold advance, paired. destruct t as [c h]. cbn [code hist].
  destruct c as [r|m|X e k]; try discriminate.
  intros H Hp Hheld.
  destruct (handle e w (a X e)) as [x w1| |msg] eqn:Hh;
    inversion H; subst; clear H; cbn [code hist].
  - apply handle_mu in Hh. unfold count_holding, locked.
    destruct e; cbn [locks_paired holding filter] in *;
      try (split; [apply Hp|rewrite Hh; destruct (holding h); reflexivity]).
    + destruct Hh as [-> ->]. destruct Hp as [-> Hk].
      split; [apply Hk|reflexivity].
    + destruct Hh as [-> ->]. destruct Hp as [-> Hk].
      split; [apply Hk|reflexivity].
  - split; [|reflexivity]. cbn [locks_paired]. intros Hm.
    destruct (handle_fault _ _ _ _ Hh Hm) as [Hmu He].
    destruct e; try contradiction. cbn in Hp. destruct Hp as [Hheld' _].
    specialize (Hheld Hheld'). congruence.
Qed.

Lemma holding_fresh {R} (p : prog R) : holding (hist (fresh p)) = false.
Proof. reflexivity. Qed.

Ltac pair_prog :=
  repeat (cbn; intros;
          try match goal with
              | |- _ /\ _ => split
              | |- context [match ?x with _ => _ end] => destruct x
              end);
  try reflexivity; try discriminate; auto.

Lemma paired_Status : locks_paired false Status.
Proof. unfold Status, pgid. pair_prog. Qed.

Lemma paired_Stop ctx : locks_paired false (Stop ctx).
Proof. unfold Stop, Stop_locked, Stop_select, pgid. pair_prog. Qed.

Lemma paired_watcher ctx : locks_paired false (watcher ctx).
Proof.
  unfold watcher, watcher_react, Status, Stop, Stop_locked, Stop_select, pgid.
  pair_prog.
Qed.

Lemma paired_waiter ctx : locks_paired false (waiter ctx).
Proof. unfold waiter, waiter_body. pair_prog. Qed.

Lemma paired_Start ctx : locks_paired false (Start ctx).
Proof. unfold Start, index, slice_from. pair_prog. Qed.

Lemma count_holding_app l1 l2 :
  count_holding (l1 ++ l2) = (count_holding l1 + count_holding l2)%nat.
Proof. unfold count_holding. now rewrite filter_app, length_app. Qed.

Lemma count_holding_cons h l :
  count_holding (h :: l) = (count_holding [h] + count_holding l)%nat.
Proof. apply (count_holding_app [h] l). Qed.

(** The holders among the threads of a list, one of which has moved. *)
Lemma count_replace {A} (f : A -> list event) (l : list A) i t0 t :
  nth_error l i = Some t0 ->
  exists rest,
    count_holding (map f l) = (count_holding [f t0] + rest)%nat /\
    count_holding (map f (replace_nth i t l)) =
      (count_holding [f t] + rest)%nat.
Proof.
  intros H.
  destruct (SupervisorProps.replace_nth_split l i t0 t H)
    as (l1 & l2 & -> & ->).
  exists (count_holding (map f l1) + count_holding (map f l2))%nat.
  rewrite !map_app. cbn [map].
  rewrite !count_holding_app, (count_holding_cons (f t0)),
    (count_holding_cons (f t)).
  lia.
Qed.

Lemma Forall_replace {A} (P : A -> Prop) (l : list A) i t0 t :
  nth_error l i = Some t0 -> Forall P l -> P t ->
  Forall P (replace_nth i t l).
Proof.
  intros H Hl Ht.
  destruct (SupervisorProps.replace_nth_split l i t0 t H)
    as (l1 & l2 & -> & ->).
  apply Forall_app in Hl. destruct Hl as [H1 H2].
  apply Forall_cons_iff in H2. destruct H2 as [_ H2].
  apply Forall_app. split; [exact H1|]. now constructor.
Qed.

Lemma start_goroutine_mutex g gs :
  Forall (fun g => paired (snd g)) gs ->
  Forall (fun g => paired (snd g)) (start_goroutine g gs) /\
  count_holding (map (fun g => hist (snd g)) (start_goroutine g gs)) =
  count_holding (map (fun g => hist (snd g)) gs).
Proof.
  intros H. destruct g as [[c|c]|]; cbn [start_goroutine]; [| |auto].
  - split.
    + apply Forall_app. split; [exact H|]. constructor; [|constructor].
      apply paired_watcher.
    + rewrite map_app, count_holding_app. cbn. lia.
  - split.
    + apply Forall_app. split; [exact H|]. constructor; [|constructor].
      apply paired_waiter.
    + rewrite map_app, count_holding_app. cbn. lia.
Qed.

Lemma holder_locks (rest : nat) (h : list event) (w : world) :
  (count_holding [h] + rest)%nat = locked w ->
  holding h = true -> mu (dmn w) = true.
Proof.
  unfold count_holding, locked. cbn [filter]. intros H Hh.
  rewrite Hh in H. cbn in H.
  destruct (mu (dmn w)); [reflexivity|lia].
Qed.

Lemma play_mutex m p p' : play m p = Some p' -> mutex_inv p -> mutex_inv p'.
Proof.
  intros H [Hst Hss Hps Hgs Hc]. unfold holders in Hc.
  destruct m as [a|i a|i a|i a|id|bytes]; cbn in H.
  - (* the call of Start *)
    destruct (advance a (shared p) (starter p)) as [[[w t] g]|] eqn:Ha;
      inversion H; subst; clear H.
    destruct (advance_mutex _ _ _ _ _ _ Ha Hst) as [Hp Hn].
    { apply (holder_locks
               (count_holding (map (fun t => hist t) (stoppers p)) +
                count_holding (map (fun t => hist t) (pollers p)) +
                count_holding (map (fun g => hist (snd g)) (goroutines p)))).
      lia. }
    destruct (start_goroutine_mutex g _ Hgs) as [Hg1 Hg2].
    constructor; cbn [shared starter stoppers pollers goroutines];
      try assumption.
    unfold holders. cbn [shared starter stoppers pollers goroutines].
    rewrite Hg2. lia.
  - (* a call of Stop *)
    destruct (nth_error (stoppers p) i) as [t0|] eqn:Hi; [|discriminate].
    destruct (advance a (shared p) t0) as [[[w t] g]|] eqn:Ha;
      inversion H; subst; clear H.
    destruct (count_replace (fun t => hist t) _ _ _ t Hi)
      as (rest & E1 & E2).
    destruct (advance_mutex _ _ _ _ _ _ Ha) as [Hp Hn].
    { rewrite Forall_forall in Hss. apply Hss. eapply nth_error_In; eauto. }
    { apply (holder_locks
               (count_holding [hist (starter p)] + rest +
                count_holding (map (fun t => hist t) (pollers p)) +
                count_holding (map (fun g => hist (snd g)) (goroutines p)))).
      lia. }
    destruct (start_goroutine_mutex g _ Hgs) as [Hg1 Hg2].
    constructor; cbn [shared starter stoppers pollers goroutines];
      try assumption.
    + eapply Forall_replace; eauto.
    + unfold holders. cbn [shared starter stoppers pollers goroutines].
      rewrite Hg2. lia.
  - (* a call of Status *)
    destruct (nth_error (pollers p) i) as [t0|] eqn:Hi; [|discriminate].
    destruct (advance a (shared p) t0) as [[[w t] g]|] eqn:Ha;
      inversion H; subst; clear H.
    destruct (count_replace (fun t => hist t) _ _ _ t Hi)
      as (rest & E1 & E2).
    destruct (advance_mutex _ _ _ _ _ _ Ha) as [Hp Hn].
    { rewrite Forall_forall in Hps. apply Hps. eapply nth_error_In; eauto. }
    { apply (holder_locks
               (count_holding [hist (starter p)] +
                count_holding (map (fun t => hist t) (stoppers p)) + rest +
                count_holding (map (fun g => hist (snd g)) (goroutines p)))).
      lia. }
    destruct (start_goroutine_mutex g _ Hgs) as [Hg1 Hg2].
    constructor; cbn [shared starter stoppers pollers goroutines];
      try assumption.
    + eapply Forall_replace; eauto.
    + unfold holders. cbn [shared starter stoppers pollers goroutines].
      rewrite Hg2. lia.
  - (* a goroutine *)
    destruct (nth_error (goroutines p) i) as [[name t0]|] eqn:Hi;
      [|discriminate].
    destruct (advance a (shared p) t0) as [[[w t] g]|] eqn:Ha;
      inversion H; subst; clear H.
    destruct (count_replace (fun g => hist (snd g)) _ _ _ (name, t) Hi)
      as (rest & E1 & E2). cbn [snd] in E1, E2.
    destruct (advance_mutex _ _ _ _ _ _ Ha) as [Hp Hn].
    { rewrite Forall_forall in Hgs.
      apply (Hgs (name, t0)). eapply nth_error_In; eauto. }
    { apply (holder_locks
               (count_holding [hist (starter p)] +
                count_holding (map (fun t => hist t) (stoppers p)) +
                count_holding (map (fun t => hist t) (pollers p)) + rest)).
      lia. }
    assert (Hgs' : Forall (fun g => paired (snd g))
                     (replace_nth i (name, t) (goroutines p)))
      by (eapply Forall_replace; eauto).
    destruct (start_goroutine_mutex g _ Hgs') as [Hg1 Hg2].
    constructor; cbn [shared starter stoppers pollers goroutines];
      try assumption.
    unfold holders. cbn [shared starter stoppers pollers goroutines].
    rewrite Hg2. lia.
  - (* a context is cancelled *)
    inversion H; subst; clear H.
    constructor; cbn [shared starter stoppers pollers goroutines];
      try assumption.
  - (* the child writes *)
    destruct (no_process (dmn (shared p))); inversion H; subst; clear H.
    constructor; cbn [shared starter stoppers pollers goroutines];
      try assumption.
Qed.

Lemma play_all_mutex ms p p' :
  play_all ms p = Some p' -> mutex_inv p -> mutex_inv p'.
Proof.
  revert p. induction ms as [|m ms IH]; cbn; intros p H Hinv.
  - inversion H; subst. exact Hinv.
  - destruct (play m p) as [p1|] eqn:Hp; [|discriminate].
    eapply IH; eauto. eapply play_mutex; eauto.
Qed.

Lemma count_holding_fresh {A R} (f : A -> thread R) (l : list A) :
  (forall x, hist (f x) = []) ->
  count_holding (map (fun x => hist (f x)) l) = 0%nat.
Proof.
  intros Hf. induction l as [|x l IH]; [reflexivity|].
  cbn [map]. rewrite count_holding_cons, IH, Hf. reflexivity.
Qed.

Lemma initial_mutex name commands workdir ctx stops polls :
  mutex_inv (initial name commands workdir ctx stops polls).
Proof.
  constructor; cbn [initial shared starter stoppers pollers goroutines].
  - apply paired_Start.
  - apply Forall_forall. intros t Ht. apply in_map_iff in Ht.
    destruct Ht as (c & <- & _). apply paired_Stop.
  - apply Forall_forall. intros t Ht. apply repeat_spec in Ht. subst.
    apply paired_Status.
  - constructor.
  - unfold holders, locked.
    cbn [initial shared starter stoppers pollers goroutines].
    rewrite map_map.
    rewrite (count_holding_fresh (fun c => fresh (Stop c)) stops)
      by reflexivity.
    replace (count_holding (map (fun t => hist t) (repeat (fresh Status) polls)))
      with 0%nat; [reflexivity|].
    induction polls as [|n IH]; [reflexivity|].
    cbn [repeat map]. rewrite count_holding_cons, <- IH. reflexivity.
Qed.

(** X18. [d.mu] serializes [Stop].  In every interleaving of one call of
    [Start], any calls of [Stop] and [Status], the goroutines,
    cancellations and output of the child, at most one thread is between
    the [d.mu.Lock()] and the deferred [d.mu.Unlock()] of [Stop], and one
    is exactly when the mutex is locked; and no call of [Stop], by a
    caller or by the watcher goroutine, panics on its unlock. *)
Theorem Stop_mutual_exclusion name commands workdir ctx stops polls p :
  reaches (initial name commands workdir ctx stops polls) p ->
  (holders p <= 1)%nat /\
  (holders p = 1%nat <-> mu (dmn (shared p)) = true) /\
  (forall t, In t (stoppers p) -> code t <> Panic unlock_panic) /\
  (forall g, In g (goroutines p) -> code (snd g) <> Panic unlock_panic).
Proof.
  intros [ms Hms].
  pose proof (play_all_mutex _ _ _ Hms (initial_mutex _ _ _ _ _ _)) as Hinv.
  destruct Hinv as [Hst Hss Hps Hgs Hc]. unfold locked in Hc.
  rewrite Forall_forall in Hss, Hgs.
  split; [destruct (mu (dmn (shared p))); lia|].
  split; [destruct (mu (dmn (shared p))); split; intros; try lia; congruence|].
  split.
  - intros t Hin E. specialize (Hss t Hin). unfold paired in Hss.
    rewrite E in Hss. now apply Hss.
  - intros g Hin E. specialize (Hgs g Hin). unfold paired in Hgs.
    rewrite E in Hgs. now apply Hgs.
Qed.

Lemma Stop_mutual_exclusion_witness :
  let p := after first_waits two_stops in
  reaches two_stops p /\ holders p = 1%nat /\ mu (dmn (shared p)) = true.
Proof.
  intros p.
  assert (H : reaches two_stops p)
    by (exists first_waits; vm_compute; reflexivity).
  split; [exact H|].
  assert (Hmu : mu (dmn (shared p)) = true) by (vm_compute; reflexivity).
  split; [|exact Hmu].
  pose proof (Stop_mutual_exclusion "catproc" ["cat"] "/tmp" Background
                [Background; Background] 0 p H) as (_ & Hiff & _).
  exact (proj2 Hiff Hmu).
Defined.

End MutexUse.

(** ** The end of the server *)

Module ShutdownUse.
Import Logger Supervisor Tools Cases.







End ShutdownUse.
